(** * ipsw: the [disass] command and the address translator

    A shallow embedding of [cmd/ipsw/cmd/disass.go] ([hex2int], the
    function-boundary lookup [isFunctionStart], the demangling helper
    [doDemangle] and the body of [disCmd]) together with the address
    translator of the shared-cache engine and the bounded queue of
    [internal/download/iphonewiki.go].  Go values are embedded as follows:

    - [uint64]/[int64]/[int] values are integers of [Z]; every operation that
      wraps in Go wraps here ([uint64], [int64]);
    - slices are lists, indexed through [index], which panics out of range;
    - a Go [(value, error)] result is an [option];
    - a run-time panic is the [Panic] result of the [Res] monad;
    - calls into the Mach-O library and [fmt.Printf] are recorded, in order,
      in the trace of the [Run] monad. *)

From Stdlib Require Import ZArith NArith List String Ascii Bool Lia.
From Stdlib Require Import Sorted Permutation HexadecimalString HexadecimalN.
Import ListNotations.

Local Open Scope string_scope.
Local Open Scope Z_scope.

(** ** The Go run time: machine integers, panics, slices *)

Module Go.

Definition uint64 (z : Z) : Z := z mod 2 ^ 64.

Definition int64 (z : Z) : Z := (z + 2 ^ 63) mod 2 ^ 64 - 2 ^ 63.

(** [math.MaxInt] on the 64-bit targets the tool is built for. *)
Definition MaxInt : Z := 2 ^ 63 - 1.

(** Result of a computation that may end in a run-time panic. *)
Inductive Res (A : Type) : Type :=
| Ret (a : A)
| Panic.
Arguments Ret {A} a.
Arguments Panic {A}.

Class Monad (M : Type -> Type) : Type :=
  { mret : forall {A}, A -> M A;
    mbind : forall {A B}, M A -> (A -> M B) -> M B }.

#[export] Instance Res_Monad : Monad Res :=
  { mret := fun A a => Ret a;
    mbind := fun A B m k => match m with Ret a => k a | Panic => Panic end }.

Definition len {A} (s : list A) : Z := Z.of_nat (List.length s).

(** [s[i]]: "index out of range" is a panic. *)
Definition index {A} (s : list A) (i : Z) : Res A :=
  if i <? 0 then Panic
  else match nth_error s (Z.to_nat i) with
       | Some x => Ret x
       | None => Panic
       end.

(** [s[i]] on a string (a byte sequence). *)
Definition byteAt (s : string) (i : Z) : Res ascii :=
  if i <? 0 then Panic
  else match String.get (Z.to_nat i) s with
       | Some c => Ret c
       | None => Panic
       end.

(** [s[k:]] for [0 <= k <= len(s)]. *)
Definition sliceFrom (s : string) (k : Z) : string :=
  substring (Z.to_nat k) (String.length s - Z.to_nat k) s.

(** [strings.HasPrefix(s, p)]. *)
Definition HasPrefix (s p : string) : bool := String.prefix p s.

(** The [%x] verb on an unsigned integer. *)
Definition fmtHex (z : Z) : string :=
  NilZero.string_of_uint (N.to_hex_uint (Z.to_N z)).

Definition tab : string := String (ascii_of_nat 9) "".
Definition newline : string := String (ascii_of_nat 10) "".

End Go.

Export Go.

Notation "x <- c ;; k" := (mbind c (fun x => k))
  (at level 61, c at next level, right associativity).

(** ** [sort.Search] of the Go standard library *)

Module Sort.

(** The loop of [sort.Search]:
    [for i < j { h := int(uint(i+j) >> 1); if !f(h) { i = h + 1 } else { j = h } }].
    The interval [j - i] shrinks at every turn, so [j - i] turns are enough
    ([searchLoop_bounds]); the closure [f] may panic. *)
Fixpoint searchLoop (fuel : nat) (f : Z -> Res bool) (i j : Z) : Res Z :=
  if i <? j then
    match fuel with
    | O => Panic
    | S fuel' =>
        let h := int64 (Z.shiftr (uint64 (i + j)) 1) in
        b <- f h ;;
        if negb b then searchLoop fuel' f (h + 1) j
        else searchLoop fuel' f i h
    end
  else Ret i.

Definition Search (n : Z) (f : Z -> Res bool) : Res Z :=
  searchLoop (Z.to_nat n) f 0 n.

End Sort.

(** ** [strings.Replace] and [strconv.ParseUint] of the Go standard library *)

Module Strings.

(** The scan of [strings.Replace(s, old, new, -1)] for a non-empty [old]:
    every instance of [old] that does not overlap an earlier one is
    replaced, from the left; [skip] counts the bytes of a replaced instance
    that are still to be dropped. *)
Fixpoint replaceFrom (old new : string) (skip : nat) (s : string) : string :=
  match s with
  | "" => ""
  | String c s' =>
      match skip with
      | S skip' => replaceFrom old new skip' s'
      | O =>
          if prefix old s
          then new ++ replaceFrom old new (String.length old - 1) s'
          else String c (replaceFrom old new 0 s')
      end
  end.

Definition ReplaceAll (s old new : string) : string := replaceFrom old new 0 s.

End Strings.

Module Strconv.

Inductive NumError : Type := ErrSyntax | ErrRange.

Definition byteOf (c : ascii) : Z := Z.of_N (N_of_ascii c).

(** [lower(c)], that is [c | ('x' - 'X')]. *)
Definition lower (c : Z) : Z := Z.lor c 32.

(** The [switch] on a byte of the input: its value as a digit. *)
Definition digit (c : Z) : option Z :=
  if (48 <=? c) && (c <=? 57) then Some (c - 48)
  else if (97 <=? lower c) && (lower c <=? 122) then Some (lower c - 97 + 10)
  else None.

(** The loop [for _, c := range []byte(s)], with [n] so far. *)
Fixpoint parseLoop (base maxVal cutoff n : Z) (s : string)
  : Z * option NumError :=
  match s with
  | "" => (n, None)
  | String c s' =>
      match digit (byteOf c) with
      | None => (0, Some ErrSyntax)
      | Some d =>
          if d >=? base then (0, Some ErrSyntax)
          else if n >=? cutoff then (maxVal, Some ErrRange)
          else
            let n := uint64 (n * base) in
            let n1 := uint64 (n + d) in
            if (n1 <? n) || (n1 >? maxVal) then (maxVal, Some ErrRange)
            else parseLoop base maxVal cutoff n1 s'
      end
  end.

(** [strconv.ParseUint(s, base, bitSize)] for an explicit base from 2 to 36
    and a bit size from 1 to 64 (the prefixes and underscores of base 0 are
    not reached then): the value and the error. *)
Definition ParseUint (s : string) (base bitSize : Z) : Z * option NumError :=
  if (s =? "")%string then (0, Some ErrSyntax)
  else
    let cutoff := (2 ^ 64 - 1) / base + 1 in
    let maxVal := uint64 (Z.shiftl 1 bitSize - 1) in
    parseLoop base maxVal cutoff 0 s.

End Strconv.

(** ** The trace of a run: library calls and printed text *)

Module Trace.

Inductive Event : Type :=
| CallFindAddressSymbol (addr : Z)
| CallGetCString (addr : Z)
| Printf (text : string).

(** A computation that leaves a trace and returns or panics. *)
Definition Run (A : Type) : Type := (list Event * Res A)%type.

#[export] Instance Run_Monad : Monad Run :=
  { mret := fun A a => ([], Ret a);
    mbind := fun A B m k =>
      match m with
      | (t, Ret a) => let (t', r) := k a in ((t ++ t')%list, r)
      | (t, Panic) => (t, Panic)
      end }.

Definition lift {A} (r : Res A) : Run A := ([], r).

Definition printf (text : string) : Run unit := ([Printf text], Ret tt).

Definition trace {A} (r : Run A) : list Event := fst r.
Definition outcome {A} (r : Run A) : Res A := snd r.

(** What reached standard output, one entry per [fmt.Printf]. *)
Fixpoint printed (t : list Event) : list string :=
  match t with
  | [] => []
  | Printf s :: t' => s :: printed t'
  | _ :: t' => printed t'
  end.

(** A computation that prints nothing (it may call the library). *)
Definition silent {A} (r : Run A) : Prop := printed (trace r) = [].

End Trace.

Export Trace.

(** ** The libraries [disass.go] calls, as far as it uses them *)

(** Go errors, by their message. *)
Definition error : Type := string.

Inductive result (A : Type) : Type :=
| Ok (a : A)
| Err (e : error).
Arguments Ok {A} a.
Arguments Err {A} e.

(** [errors.Wrapf(err, msg)]. *)
Definition Wrapf (e : error) (msg : string) : error := msg ++ ": " ++ e.

(** [github.com/blacktop/go-macho]: an opened [*macho.File]. *)
Module MachO.

Record Section : Type :=
  { Name : string;
    Addr : Z;
    Size : Z;
    (** [ReadAt(buf, off)] with [len(buf)] and [off]: the bytes read. *)
    ReadAt : Z -> Z -> result (list Byte.byte) }.

Record File : Type :=
  { (** [nil] when the image has no function-start table *)
    FunctionStarts : option (list Z);
    FindSymbolAddress : string -> result Z;
    FindAddressSymbol : Z -> option string;
    GetCString : Z -> option string;
    Sections : list Section }.

End MachO.

(** [github.com/knightsc/gapstone]: decoded instruction records (with
    [CS_OPT_DETAIL] on, so [Arm64] is never [nil]). *)
Module Gapstone.

Record Arm64MemoryOperand : Type :=
  { Base : Z; Index : Z; Disp : Z }.

(** The operand struct carries every field; the decoder fills those of the
    operand's kind and leaves the others zero. *)
Record Arm64Operand : Type :=
  { Reg : Z; Imm : Z; Mem : Arm64MemoryOperand }.

Record Arm64Instruction : Type :=
  { Operands : list Arm64Operand }.

Record Instruction : Type :=
  { Address : Z;
    Mnemonic : string;
    OpStr : string;
    Arm64 : Arm64Instruction }.

Record Engine : Type :=
  { (** [gapstone.New(CS_ARCH_ARM64, CS_MODE_ARM)] *)
    New : result unit;
    (** [engine.Disasm(data, address, 0)] *)
    Disasm : list Byte.byte -> Z -> result (list Instruction) }.

End Gapstone.

(** ** [cmd/ipsw/cmd/disass.go] *)

Module Disass.
Import MachO Gapstone.

(** The package-level flag variables and the flags read through [cmd.Flags()]. *)
Record Flags : Type :=
  { Verbose : bool;
    symbolName : string;
    demangleFlag : bool;
    vaddr : Z;
    instrs : Z }.

(** [hex2int(hexStr string) uint64]: the error of [ParseUint] is dropped. *)
Definition hex2int (hexStr : string) : Z :=
  let cleaned := Strings.ReplaceAll hexStr "#0x" "" in
  let (result, _) := Strconv.ParseUint cleaned 16 64 in
  uint64 result.

(** [isFunctionStart(starts []uint64, addr uint64) uint64]. *)
Definition isFunctionStart (starts : list Z) (addr : Z) : Res Z :=
  i <- Sort.Search (len starts)
         (fun i => s <- index starts i ;; mret (addr <=? s)) ;;
  if i <? len starts then
    si <- index starts i ;;
    if si =? addr then
      sn <- index starts (i + 1) ;;
      mret (uint64 (sn - addr))
    else mret 0
  else mret 0.

Section WithDemangler.

(** [demangle.Filter] of [internal/demangle]. *)
Variable Filter : string -> string.

(** [doDemangle(name string) string]. *)
Definition doDemangle (name : string) : Res string :=
  c0 <- byteAt name 0 ;;
  let skip := if (c0 =? ".")%char || (c0 =? "$")%char then 1 else 0 in
  cs <- byteAt name skip ;;
  let skip := if (cs =? "_")%char then skip + 1 else skip in
  let result := Filter (sliceFrom name skip) in
  if (result =? sliceFrom name skip)%string then mret name
  else mret ((if (c0 =? ".")%char then "." else "") ++ result).

(** [if demangleFlag { sym = doDemangle(sym) }]. *)
Definition demangled (fl : Flags) (sym : string) : Res string :=
  if demangleFlag fl then doDemangle sym else mret sym.

Section WithFile.

Variable m : File.
Variable fl : Flags.

Definition callFindAddressSymbol (addr : Z) : Run (option string) :=
  ([CallFindAddressSymbol addr], Ret (FindAddressSymbol m addr)).

Definition callGetCString (addr : Z) : Run (option string) :=
  ([CallGetCString addr], Ret (GetCString m addr)).

Definition setOpStr (insn : Instruction) (s : string) : Instruction :=
  {| Address := Address insn; Mnemonic := Mnemonic insn;
     OpStr := s; Arm64 := Arm64 insn |}.

(** Lines 182-191: the label header at the start of a new function. *)
Definition functionHeader (funcStarts : option (list Z)) (insn : Instruction)
  : Run unit :=
  isStart <- match funcStarts with
             | None => mret false
             | Some starts =>
                 sz <- lift (isFunctionStart starts (uint64 (Address insn))) ;;
                 mret (negb (sz =? 0))
             end ;;
  if isStart : bool then
    r <- callFindAddressSymbol (uint64 (Address insn)) ;;
    match r with
    | Some sym =>
        sym' <- lift (demangled fl sym) ;;
        printf (newline ++ sym' ++ ":" ++ newline)
    | None => mret tt
    end
  else mret tt.

(** Lines 197-203: the address looked up for an [adrp] followed by [insn]. *)
Definition adrpTarget (prev insn : Instruction) : Res Z :=
  p0 <- index (Operands (Arm64 prev)) 0 ;;
  let adrpRegister := Reg p0 in
  p1 <- index (Operands (Arm64 prev)) 1 ;;
  let adrpImm := Imm p1 in
  if (Mnemonic insn =? "ldr")%string then
    o1 <- index (Operands (Arm64 insn)) 1 ;;
    if adrpRegister =? Base (Mem o1)
    then mret (int64 (adrpImm + int64 (Disp (Mem o1))))
    else mret adrpImm
  else if (Mnemonic insn =? "add")%string then
    o0 <- index (Operands (Arm64 insn)) 0 ;;
    if adrpRegister =? Reg o0 then
      o2 <- index (Operands (Arm64 insn)) 2 ;;
      mret (int64 (adrpImm + Imm o2))
    else mret adrpImm
  else mret adrpImm.

(** Lines 204-216: mark the operand text up with a label comment. *)
Definition labelComment (adrpImm : Z) (insn : Instruction) : Run Instruction :=
  r <- callFindAddressSymbol (uint64 adrpImm) ;;
  match r with
  | Some sym =>
      sym' <- lift (demangled fl sym) ;;
      mret (setOpStr insn (OpStr insn ++ " // " ++ sym'))
  | None =>
      c <- callGetCString (uint64 adrpImm) ;;
      match c with
      | Some cstr => mret (setOpStr insn (OpStr insn ++ " // " ++ cstr))
      | None => mret insn
      end
  end.

(** Lines 193-219: look an adrp/ldr or adrp/add address up. *)
Definition markupAdrp (insns : list Instruction) (i : Z) (insn : Instruction)
  : Run Instruction :=
  afterAdrp <-
    (if Verbose fl && ((Mnemonic insn =? "ldr")%string
                       || (Mnemonic insn =? "add")%string)
     then prev <- lift (index insns (i - 1)) ;;
          mret (Mnemonic prev =? "adrp")%string
     else mret false) ;;
  if afterAdrp : bool then
    if 1 <? len (Operands (Arm64 insn)) then
      prev <- lift (index insns (i - 1)) ;;
      if 1 <? len (Operands (Arm64 prev)) then
        adrpImm <- lift (adrpTarget prev insn) ;;
        labelComment adrpImm insn
      else mret insn
    else mret insn
  else mret insn.

(** Lines 221-232: a branch to a known function shows the function. *)
Definition markupBranch (insn : Instruction) : Run Instruction :=
  if HasPrefix (Mnemonic insn) "b" && HasPrefix (OpStr insn) "#0x" then
    if 0 <? len (Operands (Arm64 insn)) then
      o0 <- lift (index (Operands (Arm64 insn)) 0) ;;
      r <- callFindAddressSymbol (uint64 (Imm o0)) ;;
      match r with
      | Some sym =>
          sym' <- lift (demangled fl sym) ;;
          mret (setOpStr insn sym')
      | None => mret insn
      end
    else mret insn
  else mret insn.

(** Line 234: ["0x%x:\t%s\t\t%s\n"]. *)
Definition insnLine (insn : Instruction) : string :=
  "0x" ++ fmtHex (Address insn) ++ ":" ++ tab ++ Mnemonic insn
       ++ tab ++ tab ++ OpStr insn ++ newline.

(** The body of [for i, insn := range insns], lines 182-234: the header,
    the two markups of the operand text ([annotate]), the line.  [insn] is a
    copy of [insns[i]], so the markup never changes [insns]. *)
Definition annotate (insns : list Instruction) (i : Z) (insn : Instruction)
  : Run Instruction :=
  insn1 <- markupAdrp insns i insn ;;
  markupBranch insn1.

Definition loopBody (funcStarts : option (list Z)) (insns : list Instruction)
    (i : Z) (insn : Instruction) : Run unit :=
  _ <- functionHeader funcStarts insn ;;
  insn' <- annotate insns i insn ;;
  printf (insnLine insn').

Fixpoint rangeLoop (body : Z -> Instruction -> Run unit) (i : Z)
    (rest : list Instruction) : Run unit :=
  match rest with
  | [] => mret tt
  | insn :: rest' => _ <- body i insn ;; rangeLoop body (i + 1) rest'
  end.

(** Lines 181-235. *)
Definition disLoop (funcStarts : option (list Z)) (insns : list Instruction)
  : Run unit :=
  rangeLoop (loopBody funcStarts insns) 0 insns.

End WithFile.

Section WithCommand.

(** [macho.Open] and the capstone engine. *)
Variable Open : string -> result File.
Variable engine : Engine.

(** [runtime.maxAlloc], the allocator limit of the target: [2^48] bytes
    on the 64-bit targets with 48 address bits. *)
Variable maxAlloc : Z.

(** [make([]byte, n)] for a [uint64] length: the buffer, known here by its
    length alone.  The run time panics with "len out of range" when the
    length does not fit an [int] or is beyond [maxAlloc]; a length within
    the limit that the machine cannot serve ends the process ("out of
    memory"), which is not modelled. *)
Definition make (n : Z) : Res Z :=
  if (n <=? MaxInt) && (n <=? maxAlloc) then Ret n else Panic.

(** The test of lines 138-139 on one section. *)
Definition inText (startAddr : Z) (sec : Section) : bool :=
  (Name sec =? "__text")%string
  && (Addr sec <=? startAddr)
  && (startAddr <? uint64 (Addr sec + Size sec)).

(** Lines 126-237, once the start address is known.  The loop over
    [m.Sections] stops at the first section that passes [inText]. *)
Definition disassembleAt (m : File) (fl : Flags) (startAddr : Z)
  : Run (option error) :=
  let instructions := instrs fl in
  let funcStarts := FunctionStarts m in
  let disassSize := uint64 (4 * instructions) in
  disassSize <-
    lift (match funcStarts with
          | Some starts =>
              if 0 <? startAddr then
                funcSize <- isFunctionStart starts startAddr ;;
                mret (if negb (funcSize =? 0) && (instructions <? funcSize)
                      then funcSize else disassSize)
              else mret disassSize
          | None => mret disassSize
          end) ;;
  data <- lift (make disassSize) ;;
  match find (inText startAddr) (Sections m) with
  | None => mret (Some "supplied vaddr not found in any __text section")
  | Some sec =>
      let memOffset := uint64 (startAddr - Addr sec) in
      data <- lift (if uint64 (instructions * 4) >? uint64 (Size sec - memOffset)
                    then make (uint64 (Size sec - memOffset))
                    else mret data) ;;
      match ReadAt sec data (int64 memOffset) with
      | Err e => mret (Some e)
      | Ok bytes =>
          match New engine with
          | Err e => mret (Some (Wrapf e "failed to create capstone engine"))
          | Ok _ =>
              match Disasm engine bytes startAddr with
              | Err e => mret (Some (Wrapf e "failed to disassemble data"))
              | Ok insns =>
                  _ <- disLoop m fl funcStarts insns ;;
                  mret None
              end
          end
      end
  end.

(** [disCmd.RunE]; [cobra.MinimumNArgs(1)] guarantees [args[0]]. *)
Definition RunE (fl : Flags) (args : list string) : Run (option error) :=
  arg0 <- lift (index args 0) ;;
  match Open arg0 with
  | Err e => mret (Some (Wrapf e (arg0 ++ " appears to not be a valid MachO")))
  | Ok m =>
      if 0 <? Z.of_nat (String.length (symbolName fl)) then
        match FindSymbolAddress m (symbolName fl) with
        | Err e => mret (Some e)
        | Ok startAddr => disassembleAt m fl startAddr
        end
      else
        let startAddr := vaddr fl in
        if startAddr =? 0
        then mret (Some "you must supply a vaddr to disassemble at")
        else disassembleAt m fl startAddr
  end.

End WithCommand.
End WithDemangler.

End Disass.

(** ** [internal/download/iphonewiki.go]: the bounded queue of the table parser *)

Module Download.

(** [type Queue struct { l *list.List; len int }]: the list from its front
    to its back, and the bound. *)
Record Queue : Type :=
  { l : list string;
    len : Z }.

Definition NewQueue (len : Z) : Queue := {| l := []; len := len |}.

Definition Len (q : Queue) : Z := Go.len (l q).

Definition IsEmpty (q : Queue) : bool := Len q =? 0.

(** [for q.l.Len() >= q.len { q.l.Remove(q.l.Front()) }]: on an empty list
    [Front()] is [nil] and [Remove(nil)] panics. *)
Fixpoint evict (bound : Z) (items : list string) : Res (list string) :=
  if Go.len items >=? bound then
    match items with
    | [] => Panic
    | _ :: items' => evict bound items'
    end
  else Ret items.

Definition Push (q : Queue) (item : string) : Res Queue :=
  items <- evict (len q) (l q) ;;
  mret {| l := (items ++ [item])%list; len := len q |}.

Definition Peek (q : Queue) : string :=
  if IsEmpty q then "" else last (l q) "".

(** [Pop]: the string returned and the queue left. *)
Definition Pop (q : Queue) : string * Queue :=
  if IsEmpty q then ("", q)
  else (last (l q) "", {| l := removelast (l q); len := len q |}).

End Download.

(** ** The address translator of the shared-cache engine *)

Module Dyld.

(** Modelled from the spec: the Mapping record of the data model, reduced to
    the fields the translator reads.  The translator of [pkg/dyld] is the
    missing part: its two functions, its table and its invariant are taken
    from sections 3 and 4.2 of the specification. *)
Record Mapping : Type :=
  { addressBase : Z;
    fileOffsetBase : Z;
    size : Z }.

(** Modelled from the spec: the failure of a translation. *)
Inductive Error : Type := AddressNotMapped.

(** Modelled from the spec: "non-overlapping ... ordered ascending": in
    the view whose ranges start at [base], the range of [a] ends before the
    range of [b] starts. *)
Definition follows (base : Mapping -> Z) (a b : Mapping) : Prop :=
  base a + size a <= base b.

(** Modelled from the spec: the order of the file-offset-ordered view. *)
Definition byOffset (a b : Mapping) : Prop :=
  fileOffsetBase a <= fileOffsetBase b.

(** Modelled from the spec: "find the Mapping whose range contains the
    value (binary search over ascending mapping table)", for the range that
    starts at [base]: the search finds the first mapping that ends beyond
    [x], which contains [x] when it does not start beyond it. *)
Definition mappingFor (base : Mapping -> Z) (table : list Mapping) (x : Z)
  : option Mapping :=
  match Sort.Search (len table)
          (fun i => mp <- index table i ;; mret (x <? base mp + size mp)) with
  | Ret i =>
      match index table i with
      | Ret mp => if base mp <=? x then Some mp else None
      | Panic => None
      end
  | Panic => None
  end.

(** Modelled from the spec: the view is kept ordered by file offset. *)
Fixpoint insertByOffset (mp : Mapping) (view : list Mapping) : list Mapping :=
  match view with
  | [] => [mp]
  | mp' :: view' =>
      if fileOffsetBase mp <=? fileOffsetBase mp' then mp :: view
      else mp' :: insertByOffset mp view'
  end.

(** Modelled from the spec: "the file-offset-ordered view" of the table. *)
Fixpoint fileOffsetView (table : list Mapping) : list Mapping :=
  match table with
  | [] => []
  | mp :: table' => insertByOffset mp (fileOffsetView table')
  end.

(** Modelled from the spec: [addressToOffset(va)] fails with
    AddressNotMapped if no mapping contains [va] and otherwise computes
    [fileOffset = mapping.fileOffsetBase + (va - mapping.addressBase)]. *)
Definition addressToOffset (table : list Mapping) (va : Z) : Z + Error :=
  match mappingFor addressBase table va with
  | Some mp => inl (fileOffsetBase mp + (va - addressBase mp))
  | None => inr AddressNotMapped
  end.

(** Modelled from the spec: [offsetToAddress(fo)] "is the exact inverse,
    searching the file-offset-ordered view". *)
Definition offsetToAddress (table : list Mapping) (fo : Z) : Z + Error :=
  match mappingFor fileOffsetBase (fileOffsetView table) fo with
  | Some mp => inl (addressBase mp + (fo - fileOffsetBase mp))
  | None => inr AddressNotMapped
  end.

(** Modelled from the spec: the invariant of the mapping table,
    "non-overlapping in both virtual-address space and file-offset space;
    ordered ascending by address", together with a condition the
    specification does not state and the binary search needs: no mapping
    is empty ([wf_size]). *)
Record wellFormed (table : list Mapping) : Prop :=
  { wf_len : len table <= MaxInt;
    wf_size : Forall (fun mp => 0 < size mp) table;
    wf_address : StronglySorted (follows addressBase) table;
    wf_offset :
      forall a b, In a table -> In b table -> a = b \/
        fileOffsetBase a + size a <= fileOffsetBase b \/
        fileOffsetBase b + size b <= fileOffsetBase a }.

End Dyld.

(** ** Sample inputs *)

Module Sample.
Import MachO Gapstone Disass.

Definition noMem : Arm64MemoryOperand := {| Base := 0; Index := 0; Disp := 0 |}.

(** Decoded operands: a register, an immediate, a memory reference. *)
Definition regOp (r : Z) : Arm64Operand :=
  {| Reg := r; Imm := 0; Mem := noMem |}.
Definition immOp (v : Z) : Arm64Operand :=
  {| Reg := 0; Imm := v; Mem := noMem |}.
Definition memOp (base disp : Z) : Arm64Operand :=
  {| Reg := 0; Imm := 0; Mem := {| Base := base; Index := 0; Disp := disp |} |}.

(** Register identifiers (any three distinct numbers do). *)
Definition x0 : Z := 199.
Definition x8 : Z := 207.
Definition x9 : Z := 208.

Definition mkInsn (addr : Z) (mn ops : string) (operands : list Arm64Operand)
  : Instruction :=
  {| Address := addr; Mnemonic := mn; OpStr := ops;
     Arm64 := {| Operands := operands |} |}.

(** [adrp x8, #0x100008000 ; ldr x8, [x8, #0xcb8]] *)
Definition adrp_x8 : Instruction :=
  mkInsn 0x100004000 "adrp" "x8, #0x100008000" [regOp x8; immOp 0x100008000].
Definition ldr_x8 : Instruction :=
  mkInsn 0x100004004 "ldr" "x8, [x8, #0xcb8]" [regOp x8; memOp x8 0xcb8].

(** [add x0, x8, #0x10] and [add x8, x9, #0x10] *)
Definition add_x0_x8 : Instruction :=
  mkInsn 0x100004004 "add" "x0, x8, #0x10" [regOp x0; regOp x8; immOp 0x10].
Definition add_x8_x9 : Instruction :=
  mkInsn 0x100004004 "add" "x8, x9, #0x10" [regOp x8; regOp x9; immOp 0x10].

(** [bl #0x100005000] and [ret] *)
Definition bl_known : Instruction :=
  mkInsn 0x100004008 "bl" "#0x100005000" [immOp 0x100005000].
Definition ret_at (addr : Z) : Instruction := mkInsn addr "ret" "" [].

Fixpoint assoc {A} (table : list (Z * A)) (key : Z) : option A :=
  match table with
  | [] => None
  | (k, v) :: table' => if k =? key then Some v else assoc table' key
  end.

(** An image known by its function starts, symbols, C strings and sections. *)
Definition image (starts : option (list Z)) (symbols cstrings : list (Z * string))
    (sections : list Section) : File :=
  {| FunctionStarts := starts;
     FindSymbolAddress := fun _ => Err "symbol not found";
     FindAddressSymbol := assoc symbols;
     GetCString := assoc cstrings;
     Sections := sections |}.

Definition symbols : list (Z * string) :=
  [(0x100008cb8, "_table"); (0x100005000, "_helper")].

Definition cstrings : list (Z * string) := [(0x100008010, "hello")].

Definition stripped : File := image (Some [100; 140; 200]) [] [] [].
Definition withSymbols : File :=
  image (Some [100; 140; 200]) ((140, "_main") :: symbols) cstrings [].

Definition flags (verbose demangle : bool) : Flags :=
  {| Verbose := verbose; symbolName := ""; demangleFlag := demangle;
     vaddr := 0; instrs := 20 |}.

Definition flagsAt (addr : Z) : Flags :=
  {| Verbose := false; symbolName := ""; demangleFlag := false;
     vaddr := addr; instrs := 20 |}.

(** A demangler that knows no mangled name. *)
Definition noFilter (s : string) : string := s.

(** [ldr x0, [x9, #0x8]]: a load whose base is not the [adrp] register. *)
Definition ldr_x0_x9 : Instruction :=
  mkInsn 0x100004004 "ldr" "x0, [x9, #0x8]" [regOp x0; memOp x9 8].

(** An image with a symbol on the page [0x100008000] itself. *)
Definition withPageSymbol : File :=
  image None ((0x100008000, "_page") :: symbols) cstrings [].

(** [demangle.Filter] on the one mangled name of the samples: the Itanium
    name [_Z3barv] is [bar()]; every other string is left as it is. *)
Definition toyFilter (s : string) : string :=
  if (s =? "_Z3barv")%string then "bar()" else s.

(** An image whose symbols carry that mangled name, with the leading
    underscore of Mach-O. *)
Definition mangled : File :=
  image (Some [100; 140; 200])
    [(140, "__Z3barv"); (0x100008cb8, "__Z3barv"); (0x100005000, "__Z3barv")]
    [] [].

(** An image whose symbol table has an entry without a name at the branch
    target, as the debug entries of a symbol table are. *)
Definition unnamed : File := image None [(0x100005000, "")] [] [].

(** A mapping table with an empty mapping that starts at the file offset
    of the mapping before it. *)
Definition dataMapping : Dyld.Mapping :=
  {| Dyld.addressBase := 0; Dyld.fileOffsetBase := 100; Dyld.size := 10 |}.
Definition emptyMapping : Dyld.Mapping :=
  {| Dyld.addressBase := 10; Dyld.fileOffsetBase := 100; Dyld.size := 0 |}.
Definition tableWithEmpty : list Dyld.Mapping := [dataMapping; emptyMapping].

(** The flags of [disass --symbol name --vaddr addr]. *)
Definition flagsFor (name : string) (addr : Z) : Flags :=
  {| Verbose := false; symbolName := name; demangleFlag := false;
     vaddr := addr; instrs := 20 |}.

(** A queue of bound 2 that is full. *)
Definition fullQueue : Download.Queue :=
  {| Download.l := ["12.0"; "12.1"]; Download.len := 2 |}.

(** An image with one [__text] section at [0x100004000 .. 0x100005000]. *)
Definition textSection : Section :=
  {| Name := "__text"; Addr := 0x100004000; Size := 0x1000;
     ReadAt := fun _ _ => Err "EOF" |}.

Definition openImage (path : string) : result File :=
  Ok (image (Some [100; 140; 200]) symbols cstrings [textSection]).

Definition engine : Engine :=
  {| New := Ok tt; Disasm := fun _ _ => Ok [] |}.

(** The allocator limit of the 64-bit targets. *)
Definition maxAlloc : Z := 2 ^ 48.

(** The mapping table of the scenario of the specification: [__TEXT] at
    [0x180000000 .. 0x1CC6C0000] from file offset 0, [__AUTH] at
    [0x1D7B18000 .. 0x1DCCA4000] from file offset [0x53B18000]. *)
Definition textMapping : Dyld.Mapping :=
  {| Dyld.addressBase := 0x180000000; Dyld.fileOffsetBase := 0;
     Dyld.size := 0x4C6C0000 |}.
Definition authMapping : Dyld.Mapping :=
  {| Dyld.addressBase := 0x1D7B18000; Dyld.fileOffsetBase := 0x53B18000;
     Dyld.size := 0x518C000 |}.
Definition cacheMappings : list Dyld.Mapping := [textMapping; authMapping].

End Sample.

(** ** Properties *)

Module SortFacts.
Import Sort.

Lemma midpoint (i j : Z) :
  0 <= i -> i < j -> j <= MaxInt ->
  int64 (Z.shiftr (uint64 (i + j)) 1) = (i + j) / 2.
Proof.
  intros Hi Hij Hj. unfold MaxInt in Hj.
  unfold uint64. rewrite Z.mod_small by lia.
  rewrite Z.shiftr_div_pow2 by lia. change (2 ^ 1) with 2.
  unfold int64. rewrite Z.mod_small.
  - lia.
  - assert ((i + j) / 2 < 2 ^ 63) by (apply Z.div_lt_upper_bound; lia).
    assert (0 <= (i + j) / 2) by (apply Z.div_pos; lia).
    lia.
Qed.

(** The loop never panics on its own and stays inside [[i, j]]: only a
    panic of the closure can make it panic. *)
Lemma searchLoop_bounds (f : Z -> Res bool) (p : Z -> bool) :
  forall fuel i j,
    0 <= i -> i <= j -> j <= MaxInt ->
    (Z.to_nat (j - i) <= fuel)%nat ->
    (forall h, i <= h < j -> f h = Ret (p h)) ->
    exists r, searchLoop fuel f i j = Ret r /\ i <= r <= j.
Proof.
  induction fuel as [|fuel IH]; intros i j Hi Hij Hj Hfuel Hf; simpl.
  - destruct (Z.ltb_spec i j); [lia|]. exists i. split; [reflexivity|lia].
  - destruct (Z.ltb_spec i j) as [Hlt|Hge].
    + rewrite midpoint by lia.
      assert (Hh : i <= (i + j) / 2 < j).
      { split; [apply Z.div_le_lower_bound; lia|apply Z.div_lt_upper_bound; lia]. }
      rewrite (Hf _ Hh). simpl.
      destruct (p ((i + j) / 2)); simpl.
      * destruct (IH i ((i + j) / 2)) as (r & Hr & Hb); try lia.
        { intros h Hh'. apply Hf. lia. }
        exists r. split; [exact Hr|lia].
      * destruct (IH ((i + j) / 2 + 1) j) as (r & Hr & Hb); try lia.
        { intros h Hh'. apply Hf. lia. }
        exists r. split; [exact Hr|lia].
    + exists i. split; [reflexivity|lia].
Qed.

(** On a predicate that is monotone on [[i, j)] the loop returns the least
    index at which it holds ([j] when there is none). *)
Lemma searchLoop_least (f : Z -> Res bool) (p : Z -> bool) :
  forall fuel i j,
    0 <= i -> i <= j -> j <= MaxInt ->
    (Z.to_nat (j - i) <= fuel)%nat ->
    (forall h, i <= h < j -> f h = Ret (p h)) ->
    (forall h k, i <= h -> h <= k -> k < j -> p h = true -> p k = true) ->
    exists r, searchLoop fuel f i j = Ret r /\ i <= r <= j /\
              (forall k, i <= k < r -> p k = false) /\
              (forall k, r <= k < j -> p k = true).
Proof.
  induction fuel as [|fuel IH]; intros i j Hi Hij Hj Hfuel Hf Hmono; simpl.
  - destruct (Z.ltb_spec i j); [lia|]. exists i. repeat split; try lia; intros; lia.
  - destruct (Z.ltb_spec i j) as [Hlt|Hge].
    + rewrite midpoint by lia.
      assert (Hh : i <= (i + j) / 2 < j).
      { split; [apply Z.div_le_lower_bound; lia|apply Z.div_lt_upper_bound; lia]. }
      rewrite (Hf _ Hh). simpl.
      destruct (p ((i + j) / 2)) eqn:Hp; simpl.
      * destruct (IH i ((i + j) / 2)) as (r & Hr & Hb & Hlo & Hhi); try lia.
        { intros h Hh'. apply Hf. lia. }
        { intros h k H1 H2 H3. apply Hmono; lia. }
        exists r. repeat split; try lia; [exact Hr|exact Hlo|].
        intros k Hk. destruct (Z.lt_ge_cases k ((i + j) / 2)).
        -- apply Hhi. lia.
        -- apply (Hmono ((i + j) / 2) k); try lia. exact Hp.
      * destruct (IH ((i + j) / 2 + 1) j) as (r & Hr & Hb & Hlo & Hhi); try lia.
        { intros h Hh'. apply Hf. lia. }
        { intros h k H1 H2 H3. apply Hmono; lia. }
        exists r. repeat split; try lia; [exact Hr| |exact Hhi].
        intros k Hk. destruct (Z.lt_ge_cases k ((i + j) / 2 + 1)).
        -- destruct (p k) eqn:Hpk; [|reflexivity].
           rewrite (Hmono k ((i + j) / 2)) in Hp; try lia. exact Hpk.
        -- apply Hlo. lia.
    + exists i. repeat split; try lia; intros; lia.
Qed.

End SortFacts.

(** ** The function-boundary lookup *)

Module FunctionStartFacts.
Import Sort SortFacts Disass.

Lemma index_Ret {A} (s : list A) (i : Z) (x : A) :
  0 <= i -> nth_error s (Z.to_nat i) = Some x -> index s i = Ret x.
Proof.
  intros Hi Hn. unfold index.
  destruct (Z.ltb_spec i 0); [lia|]. now rewrite Hn.
Qed.

Lemma index_nat {A} (s : list A) (k : nat) (x : A) :
  nth_error s k = Some x -> index s (Z.of_nat k) = Ret x.
Proof.
  intros Hn. apply index_Ret; [lia|]. now rewrite Nat2Z.id.
Qed.

Lemma index_inv {A} (s : list A) (i : Z) (x : A) :
  index s i = Ret x ->
  0 <= i < len s /\ nth_error s (Z.to_nat i) = Some x.
Proof.
  unfold index, len. destruct (Z.ltb_spec i 0); [discriminate|].
  destruct (nth_error s (Z.to_nat i)) eqn:Hn; [|discriminate].
  intros [= ->]. split; [|reflexivity].
  assert (Z.to_nat i < List.length s)%nat
    by (apply nth_error_Some; congruence).
  lia.
Qed.

Lemma index_in_range {A} (s : list A) (i : Z) :
  0 <= i < len s -> exists x, index s i = Ret x.
Proof.
  unfold len. intros Hi.
  destruct (nth_error s (Z.to_nat i)) eqn:Hn.
  - exists a. now apply index_Ret.
  - apply nth_error_None in Hn. lia.
Qed.

Lemma index_past_end {A} (s : list A) (i : Z) :
  len s <= i -> index s i = @Panic A.
Proof.
  unfold len, index. intros Hi.
  destruct (Z.ltb_spec i 0); [reflexivity|].
  destruct (nth_error s (Z.to_nat i)) eqn:Hn; [|reflexivity].
  assert (Z.to_nat i < List.length s)%nat
    by (apply nth_error_Some; congruence).
  lia.
Qed.

(** The closure handed to [sort.Search] never panics inside the slice. *)
Lemma closure_total (starts : list Z) (addr : Z) :
  forall h, 0 <= h < len starts ->
    (s <- index starts h ;; mret (addr <=? s))
    = Ret (addr <=? nth (Z.to_nat h) starts 0).
Proof.
  intros h Hh. destruct (index_in_range starts h Hh) as [x Hx].
  rewrite Hx. simpl. apply index_inv in Hx as [_ Hx].
  now rewrite (nth_error_nth _ _ _ Hx).
Qed.

(** The binary search itself is total. *)
Lemma search_total (starts : list Z) (addr : Z) :
  len starts <= MaxInt ->
  exists r, Search (len starts)
              (fun i => s <- index starts i ;; mret (addr <=? s)) = Ret r
            /\ 0 <= r <= len starts.
Proof.
  intros Hlen. unfold Search.
  apply (searchLoop_bounds _ (fun h => addr <=? nth (Z.to_nat h) starts 0));
    try lia.
  - unfold len. lia.
  - intros h Hh. now apply closure_total.
Qed.

(** An address that is no entry of the table has size 0, sorted table or
    not. *)
Lemma isFunctionStart_no_entry (starts : list Z) (addr : Z) :
  len starts <= MaxInt ->
  ~ In addr starts ->
  isFunctionStart starts addr = Ret 0.
Proof.
  intros Hlen Hnot. unfold isFunctionStart.
  destruct (search_total starts addr Hlen) as (r & -> & Hr). simpl.
  destruct (Z.ltb_spec r (len starts)) as [Hlt|]; [|reflexivity].
  destruct (index_in_range starts r) as [x Hx]; [lia|].
  rewrite Hx. simpl.
  destruct (Z.eqb_spec x addr) as [->|]; [|reflexivity].
  exfalso. apply Hnot. apply index_inv in Hx as [_ Hx].
  eapply nth_error_In; eauto.
Qed.

Lemma sorted_nth {A} (R : A -> A -> Prop) (l : list A) :
  StronglySorted R l ->
  forall i j x y, (i < j)%nat ->
    nth_error l i = Some x -> nth_error l j = Some y -> R x y.
Proof.
  induction 1 as [|a l Hs IH Hall]; intros i j x y Hij Hi Hj.
  - destruct i; discriminate.
  - destruct j as [|j]; [lia|]. simpl in Hj.
    destruct i as [|i]; simpl in Hi.
    + injection Hi as <-. rewrite Forall_forall in Hall.
      apply Hall. eapply nth_error_In; eauto.
    + apply (IH i j); auto. lia.
Qed.

Lemma ascending_nth (starts : list Z) :
  StronglySorted Z.lt starts ->
  forall i j x y, (i < j)%nat ->
    nth_error starts i = Some x -> nth_error starts j = Some y -> x < y.
Proof. apply sorted_nth. Qed.

(** On a strictly ascending table the search stops at the entry itself. *)
Lemma search_entry (starts : list Z) (addr : Z) (k : nat) :
  len starts <= MaxInt ->
  StronglySorted Z.lt starts ->
  nth_error starts k = Some addr ->
  Search (len starts)
    (fun i => s <- index starts i ;; mret (addr <=? s)) = Ret (Z.of_nat k).
Proof.
  intros Hlen Hsorted Hk. unfold Search.
  assert (Hkl : (k < List.length starts)%nat)
    by (apply nth_error_Some; congruence).
  destruct (searchLoop_least
              (fun i => s <- index starts i ;; mret (addr <=? s))
              (fun h => addr <=? nth (Z.to_nat h) starts 0)
              (Z.to_nat (len starts)) 0 (len starts))
    as (r & Hr & Hb & Hlo & Hhi); try lia.
  - unfold len. lia.
  - intros h Hh. now apply closure_total.
  - intros h j Hh Hhj Hj Hp. apply Z.leb_le in Hp. apply Z.leb_le.
    destruct (Z.eq_dec h j) as [->|Hne]; [exact Hp|].
    unfold len in Hj.
    destruct (nth_error starts (Z.to_nat h)) eqn:Eh;
      [|apply nth_error_None in Eh; lia].
    destruct (nth_error starts (Z.to_nat j)) eqn:Ej;
      [|apply nth_error_None in Ej; lia].
    rewrite (nth_error_nth _ _ _ Eh) in Hp. rewrite (nth_error_nth _ _ _ Ej).
    assert (z < z0) by (apply (ascending_nth starts Hsorted (Z.to_nat h) (Z.to_nat j)); auto; lia).
    lia.
  - rewrite Hr. f_equal.
    assert (Hpk : (addr <=? nth (Z.to_nat (Z.of_nat k)) starts 0) = true).
    { rewrite Nat2Z.id, (nth_error_nth _ _ _ Hk). apply Z.leb_refl. }
    destruct (Z.lt_trichotomy r (Z.of_nat k)) as [Hlt|[Heq|Hgt]]; [|exact Heq|].
    + exfalso. unfold len in Hb.
      assert (Hpr : (addr <=? nth (Z.to_nat r) starts 0) = true)
        by (apply Hhi; unfold len; lia).
      apply Z.leb_le in Hpr.
      destruct (nth_error starts (Z.to_nat r)) eqn:Er;
        [|apply nth_error_None in Er; lia].
      rewrite (nth_error_nth _ _ _ Er) in Hpr.
      assert (z < addr)
        by (apply (ascending_nth starts Hsorted (Z.to_nat r) k); auto; lia).
      lia.
    + exfalso. rewrite Hlo in Hpk by lia. discriminate.
Qed.

(** An entry followed by another one has the distance to it as its size. *)
Lemma isFunctionStart_entry (starts : list Z) (addr next : Z) (k : nat) :
  len starts <= MaxInt ->
  StronglySorted Z.lt starts ->
  nth_error starts k = Some addr ->
  nth_error starts (S k) = Some next ->
  isFunctionStart starts addr = Ret (uint64 (next - addr)).
Proof.
  intros Hlen Hsorted Hk Hn. unfold isFunctionStart.
  rewrite (search_entry starts addr k Hlen Hsorted Hk). simpl.
  assert (Hkl : (k < List.length starts)%nat)
    by (apply nth_error_Some; congruence).
  destruct (Z.ltb_spec (Z.of_nat k) (len starts)); [|unfold len in *; lia].
  rewrite (index_nat _ _ _ Hk). simpl. rewrite Z.eqb_refl.
  replace (Z.of_nat k + 1) with (Z.of_nat (S k)) by lia.
  now rewrite (index_nat _ _ _ Hn).
Qed.

(** The last entry of a strictly ascending table makes the lookup read
    [starts[len(starts)]]. *)
Lemma isFunctionStart_last_entry (starts : list Z) (addr : Z) :
  len (starts ++ [addr]) <= MaxInt ->
  StronglySorted Z.lt (starts ++ [addr]) ->
  isFunctionStart (starts ++ [addr]) addr = Panic.
Proof.
  intros Hlen Hsorted. unfold isFunctionStart.
  assert (Hk : nth_error (starts ++ [addr]) (List.length starts) = Some addr).
  { rewrite nth_error_app2 by lia. now rewrite Nat.sub_diag. }
  rewrite (search_entry _ addr _ Hlen Hsorted Hk). simpl.
  destruct (Z.ltb_spec (Z.of_nat (List.length starts)) (len (starts ++ [addr])))
    as [_|Hge]; [|unfold len in Hge; rewrite length_app in Hge; simpl in Hge; lia].
  rewrite (index_nat _ _ _ Hk). simpl. rewrite Z.eqb_refl.
  rewrite index_past_end; [reflexivity|].
  unfold len. rewrite length_app. simpl. lia.
Qed.

(** C3: on the function-start table [100, 140, 200] the lookup gives size
    60 (200 - 140) at address 140 and 0 at address 150, which is no
    function start. *)
Theorem isFunctionStart_spec_example :
  isFunctionStart [100; 140; 200] 140 = Ret 60 /\
  isFunctionStart [100; 140; 200] 150 = Ret 0.
Proof. split; vm_compute; reflexivity. Qed.

(** C6: the lookup is not total: at the last entry of the table
    [100, 140, 200] it reads [starts[3]] and panics instead of returning a
    size. *)
Theorem isFunctionStart_last_panics :
  isFunctionStart [100; 140; 200] 200 = Panic.
Proof. vm_compute. reflexivity. Qed.

End FunctionStartFacts.

(** ** The annotator *)

Module AnnotatorFacts.
Import Disass MachO Gapstone FunctionStartFacts.

Lemma uint64_int64 (z : Z) : uint64 (int64 z) = uint64 z.
Proof.
  unfold uint64, int64. rewrite Zminus_mod_idemp_l.
  f_equal. lia.
Qed.

Lemma uint64_add_int64 (a d : Z) :
  uint64 (int64 (a + int64 d)) = uint64 (a + d).
Proof.
  rewrite uint64_int64. unfold uint64.
  rewrite <- (Zplus_mod_idemp_r (int64 d)), <- (Zplus_mod_idemp_r d).
  f_equal. f_equal. apply uint64_int64.
Qed.

(** A mnemonic of the branch class is neither [ldr] nor [add]. *)
Lemma branch_not_ldr_add (mn : string) :
  HasPrefix mn "b" = true ->
  (mn =? "ldr")%string = false /\ (mn =? "add")%string = false.
Proof.
  unfold HasPrefix. destruct mn as [|c mn]; [discriminate|].
  change (prefix "b" (String c mn))
    with (if Ascii.ascii_dec "b" c then prefix "" mn else false).
  destruct (Ascii.ascii_dec "b" c) as [<-|Hne]; [|discriminate].
  intros _. split; reflexivity.
Qed.

Section Binds.

Context {A B : Type}.

Lemma bind_ret (a : A) (k : A -> Run B) : (x <- mret a ;; k x) = k a.
Proof. simpl. now destruct (k a). Qed.

Lemma bind_lift_Ret (a : A) (k : A -> Run B) :
  (x <- lift (Ret a) ;; k x) = k a.
Proof. simpl. now destruct (k a). Qed.

Lemma bind_traced (t : list Event) (a : A) (k : A -> Run B) :
  (x <- (t, Ret a) ;; k x) = ((t ++ trace (k a))%list, outcome (k a)).
Proof. simpl. now destruct (k a). Qed.

Lemma bind_lift_Panic (k : A -> Run B) :
  (x <- lift Panic ;; k x) = ([], Panic).
Proof. reflexivity. Qed.

End Binds.

Section Annotator.

Variable Filter : string -> string.
Variable m : File.
Variable fl : Flags.

(** Without the verbose flag the adrp markup does nothing at all. *)
Lemma markupAdrp_quiet (insns : list Instruction) (i : Z) (insn : Instruction) :
  Verbose fl = false ->
  markupAdrp Filter m fl insns i insn = ([], Ret insn).
Proof. intros Hv. unfold markupAdrp. rewrite Hv. reflexivity. Qed.

(** Nor does it on an instruction that is neither [ldr] nor [add]. *)
Lemma markupAdrp_other (insns : list Instruction) (i : Z) (insn : Instruction) :
  (Mnemonic insn =? "ldr")%string = false ->
  (Mnemonic insn =? "add")%string = false ->
  markupAdrp Filter m fl insns i insn = ([], Ret insn).
Proof.
  intros H1 H2. unfold markupAdrp. rewrite H1, H2.
  rewrite andb_false_r. reflexivity.
Qed.

(** Nor does the branch markup on an instruction outside the branch class. *)
Lemma markupBranch_other (insn : Instruction) :
  HasPrefix (Mnemonic insn) "b" = false ->
  markupBranch Filter m fl insn = ([], Ret insn).
Proof. intros H. unfold markupBranch. rewrite H. reflexivity. Qed.

Lemma annotate_branch (insns : list Instruction) (i : Z) (insn : Instruction) :
  HasPrefix (Mnemonic insn) "b" = true ->
  annotate Filter m fl insns i insn = markupBranch Filter m fl insn.
Proof.
  intros Hb. destruct (branch_not_ldr_add _ Hb) as [H1 H2].
  unfold annotate. rewrite (markupAdrp_other insns i insn H1 H2).
  apply (bind_ret insn).
Qed.

Lemma demangled_off (sym : string) :
  demangleFlag fl = false -> demangled Filter fl sym = Ret sym.
Proof. intros H. unfold demangled. now rewrite H. Qed.

(** The label lookup of lines 204-216, by its two library calls. *)
Lemma labelComment_eq (a : Z) (insn : Instruction) :
  labelComment Filter m fl a insn =
  match FindAddressSymbol m (uint64 a) with
  | Some sym =>
      ([CallFindAddressSymbol (uint64 a)],
       sym' <- demangled Filter fl sym ;;
       mret (setOpStr insn (OpStr insn ++ " // " ++ sym')))
  | None =>
      ([CallFindAddressSymbol (uint64 a); CallGetCString (uint64 a)],
       Ret match GetCString m (uint64 a) with
           | Some cstr => setOpStr insn (OpStr insn ++ " // " ++ cstr)
           | None => insn
           end)
  end.
Proof.
  unfold labelComment, callFindAddressSymbol, callGetCString.
  destruct (FindAddressSymbol m (uint64 a)) as [sym|]; simpl.
  - destruct (demangled Filter fl sym); reflexivity.
  - destruct (GetCString m (uint64 a)); reflexivity.
Qed.

(** The adrp markup on an [ldr]/[add] that follows an [adrp], both with
    their operands decoded. *)
Lemma markupAdrp_pair (insns : list Instruction) (i : Z)
    (prev insn : Instruction) :
  Verbose fl = true ->
  Mnemonic insn = "ldr" \/ Mnemonic insn = "add" ->
  index insns (i - 1) = Ret prev ->
  Mnemonic prev = "adrp" ->
  1 < len (Operands (Arm64 insn)) ->
  1 < len (Operands (Arm64 prev)) ->
  markupAdrp Filter m fl insns i insn =
  (a <- lift (adrpTarget prev insn) ;; labelComment Filter m fl a insn).
Proof.
  intros Hv Hmn Hprev Hadrp Hops Hpops. unfold markupAdrp.
  rewrite Hv, Hprev.
  assert (Hor : ((Mnemonic insn =? "ldr")%string
                 || (Mnemonic insn =? "add")%string) = true).
  { destruct Hmn as [-> | ->]; reflexivity. }
  rewrite Hor.
  change (true && true) with true. cbv iota.
  rewrite bind_lift_Ret, bind_ret, Hadrp.
  change (("adrp" =? "adrp")%string) with true. cbv iota.
  apply Z.ltb_lt in Hops, Hpops. rewrite Hops. rewrite bind_lift_Ret.
  now rewrite Hpops.
Qed.

Lemma prefix_append (s t : string) : prefix s (s ++ t) = true.
Proof.
  induction s as [|c s IH]; [now destruct t|].
  change (prefix (String c s) (String c s ++ t))
    with (if Ascii.ascii_dec c c then prefix s (s ++ t) else false).
  destruct (Ascii.ascii_dec c c); [exact IH|congruence].
Qed.

(** The address an [adrp]/[ldr] pair is looked up at. *)
Lemma adrpTarget_ldr (prev insn : Instruction) (p0 p1 o0 o1 : Arm64Operand) :
  Operands (Arm64 prev) = [p0; p1] ->
  Mnemonic insn = "ldr" ->
  Operands (Arm64 insn) = [o0; o1] ->
  adrpTarget prev insn =
  Ret (if Reg p0 =? Base (Mem o1)
       then int64 (Imm p1 + int64 (Disp (Mem o1)))
       else Imm p1).
Proof.
  intros Hp Hmn Ho. unfold adrpTarget. rewrite Hp, Hmn, Ho. simpl.
  now destruct (Reg p0 =? Base (Mem o1)).
Qed.

(** The address an [adrp]/[add] pair is looked up at: the page is combined
    with the immediate when the [adrp] register is the destination
    register ([Operands[0]]) of the [add]. *)
Lemma adrpTarget_add (prev insn : Instruction) (p0 p1 o0 o1 o2 : Arm64Operand) :
  Operands (Arm64 prev) = [p0; p1] ->
  Mnemonic insn = "add" ->
  Operands (Arm64 insn) = [o0; o1; o2] ->
  adrpTarget prev insn =
  Ret (if Reg p0 =? Reg o0 then int64 (Imm p1 + Imm o2) else Imm p1).
Proof.
  intros Hp Hmn Ho. unfold adrpTarget. rewrite Hp, Hmn, Ho. simpl.
  now destruct (Reg p0 =? Reg o0).
Qed.

(** With the verbose flag set, an [adrp x8, #PAGE] immediately followed by
    [ldr x8, [x8, #0xcb8]], where PAGE + 0xcb8 is the value of a known
    symbol, gets [" // "] and whatever [demangled] returns for the symbol
    name appended to the operand text of the [ldr]. *)
Theorem adrp_ldr_symbol_comment (insns : list Instruction) (i : Z)
    (adrp ldr : Instruction) (p0 p1 o0 o1 : Arm64Operand)
    (x8 PAGE : Z) (sym sym' : string) :
  Verbose fl = true ->
  index insns (i - 1) = Ret adrp ->
  index insns i = Ret ldr ->
  Mnemonic adrp = "adrp" ->
  Operands (Arm64 adrp) = [p0; p1] -> Reg p0 = x8 -> Imm p1 = PAGE ->
  Mnemonic ldr = "ldr" ->
  Operands (Arm64 ldr) = [o0; o1] ->
  Base (Mem o1) = x8 -> Disp (Mem o1) = 0xcb8 ->
  FindAddressSymbol m (uint64 (PAGE + 0xcb8)) = Some sym ->
  demangled Filter fl sym = Ret sym' ->
  annotate Filter m fl insns i ldr =
    ([CallFindAddressSymbol (uint64 (PAGE + 0xcb8))],
     Ret (setOpStr ldr (OpStr ldr ++ " // " ++ sym')))
  /\ prefix (OpStr ldr) (OpStr ldr ++ " // " ++ sym') = true.
Proof.
  intros Hv Hprev _ Hadrp Hp Hreg Himm Hldr Ho Hbase Hdisp Hsym Hdem.
  split; [|apply prefix_append].
  unfold annotate.
  rewrite (markupAdrp_pair insns i adrp ldr Hv (or_introl Hldr) Hprev Hadrp);
    [|rewrite Ho; reflexivity|rewrite Hp; reflexivity].
  rewrite (adrpTarget_ldr adrp ldr p0 p1 o0 o1 Hp Hldr Ho).
  rewrite Hreg, Hbase, Z.eqb_refl, Himm, Hdisp.
  rewrite bind_lift_Ret, labelComment_eq, uint64_add_int64, Hsym, Hdem.
  change (mbind (Ret sym') (fun s => mret (setOpStr ldr (OpStr ldr ++ " // " ++ s))))
    with (Ret (setOpStr ldr (OpStr ldr ++ " // " ++ sym'))).
  rewrite bind_traced.
  rewrite markupBranch_other by (cbn [Mnemonic setOpStr]; now rewrite Hldr).
  reflexivity.
Qed.

(** A branch-class instruction whose operand is a literal address gets its
    operand text replaced by whatever [demangled] returns for the name of
    the symbol at that address; when no symbol is known there the operand
    text stays as it is. *)
Theorem branch_operand_replaced (insns : list Instruction) (i : Z)
    (insn : Instruction) (o0 : Arm64Operand) (ops : list Arm64Operand) :
  HasPrefix (Mnemonic insn) "b" = true ->
  HasPrefix (OpStr insn) "#0x" = true ->
  Operands (Arm64 insn) = o0 :: ops ->
  match FindAddressSymbol m (uint64 (Imm o0)) with
  | Some sym =>
      (forall sym', demangled Filter fl sym = Ret sym' ->
         annotate Filter m fl insns i insn =
           ([CallFindAddressSymbol (uint64 (Imm o0))],
            Ret (setOpStr insn sym'))
         /\ OpStr (setOpStr insn sym') = sym')
      /\ (demangleFlag fl = false ->
          outcome (annotate Filter m fl insns i insn)
          = Ret (setOpStr insn sym))
  | None =>
      annotate Filter m fl insns i insn =
        ([CallFindAddressSymbol (uint64 (Imm o0))], Ret insn)
  end.
Proof.
  intros Hb Hop Hops.
  rewrite (annotate_branch insns i insn Hb).
  unfold markupBranch, callFindAddressSymbol. rewrite Hb, Hop, Hops.
  change (0 <? len (o0 :: ops)) with true.
  change (index (o0 :: ops) 0) with (Ret o0).
  cbv iota. rewrite bind_lift_Ret, bind_traced.
  destruct (FindAddressSymbol m (uint64 (Imm o0))) as [sym|]; [|reflexivity].
  split.
  - intros sym' Hdem. rewrite Hdem, bind_lift_Ret. split; reflexivity.
  - intros Hoff. rewrite (demangled_off sym Hoff), bind_lift_Ret. reflexivity.
Qed.

(** The adrp markup of a pair, by its library calls: the symbol index is
    asked first and the C-string reader only when the symbol lookup
    fails. *)
Theorem label_symbol_then_cstring (insns : list Instruction) (i : Z)
    (prev insn : Instruction) (a : Z) :
  Verbose fl = true ->
  Mnemonic insn = "ldr" \/ Mnemonic insn = "add" ->
  index insns (i - 1) = Ret prev ->
  Mnemonic prev = "adrp" ->
  1 < len (Operands (Arm64 insn)) ->
  1 < len (Operands (Arm64 prev)) ->
  adrpTarget prev insn = Ret a ->
  markupAdrp Filter m fl insns i insn =
  match FindAddressSymbol m (uint64 a) with
  | Some sym =>
      ([CallFindAddressSymbol (uint64 a)],
       sym' <- demangled Filter fl sym ;;
       mret (setOpStr insn (OpStr insn ++ " // " ++ sym')))
  | None =>
      ([CallFindAddressSymbol (uint64 a); CallGetCString (uint64 a)],
       Ret match GetCString m (uint64 a) with
           | Some cstr => setOpStr insn (OpStr insn ++ " // " ++ cstr)
           | None => insn
           end)
  end.
Proof.
  intros Hv Hmn Hprev Hadrp Hops Hpops Ha.
  rewrite (markupAdrp_pair insns i prev insn Hv Hmn Hprev Hadrp Hops Hpops).
  rewrite Ha, bind_lift_Ret. apply labelComment_eq.
Qed.

(** Without the verbose flag an [ldr] or [add] keeps the operand text of
    the decoder (no library call is made for it either) and its line is
    printed with that text, whereas a branch-class instruction is treated
    the same with and without the flag. *)
Theorem quiet_keeps_operand_text (insns : list Instruction) (i : Z)
    (insn : Instruction) :
  (Verbose fl = false ->
   Mnemonic insn = "ldr" \/ Mnemonic insn = "add" ->
   annotate Filter m fl insns i insn = ([], Ret insn)
   /\ forall funcStarts,
        loopBody Filter m fl funcStarts insns i insn =
        (_ <- functionHeader Filter m fl funcStarts insn ;;
         printf (insnLine insn)))
  /\ (forall fl' : Flags,
        demangleFlag fl' = demangleFlag fl ->
        HasPrefix (Mnemonic insn) "b" = true ->
        annotate Filter m fl' insns i insn
        = annotate Filter m fl insns i insn).
Proof.
  split.
  - intros Hv Hmn.
    assert (Ha : annotate Filter m fl insns i insn = ([], Ret insn)).
    { unfold annotate.
      rewrite (markupAdrp_quiet insns i insn Hv), bind_traced.
      rewrite markupBranch_other; [reflexivity|].
      destruct Hmn as [-> | ->]; reflexivity. }
    split; [exact Ha|].
    intros funcStarts. unfold loopBody. now rewrite Ha.
  - intros fl' Hd Hb.
    destruct (branch_not_ldr_add _ Hb) as [H1 H2].
    unfold annotate, markupAdrp. rewrite H1, H2, !andb_false_r.
    cbv iota. rewrite !bind_ret.
    unfold markupBranch, demangled. now rewrite Hd.
Qed.

End Annotator.

End AnnotatorFacts.

(** ** The scan: headers and lines *)

Module ScanFacts.
Import Disass MachO Gapstone FunctionStartFacts AnnotatorFacts.

Lemma printed_app (t1 t2 : list Event) :
  printed (t1 ++ t2) = (printed t1 ++ printed t2)%list.
Proof.
  induction t1 as [|e t1 IH]; [reflexivity|].
  destruct e; simpl; now rewrite IH.
Qed.

Lemma silent_ret {A} (a : A) : silent (mret a : Run A).
Proof. reflexivity. Qed.

Lemma silent_lift {A} (r : Res A) : silent (lift r).
Proof. reflexivity. Qed.

Lemma silent_bind {A B} (r : Run A) (k : A -> Run B) :
  silent r -> (forall a, silent (k a)) -> silent (x <- r ;; k x).
Proof.
  unfold silent. intros Hr Hk. destruct r as [t [a|]]; simpl in *.
  - specialize (Hk a). destruct (k a) as [t' r']. simpl in *.
    now rewrite printed_app, Hr, Hk.
  - exact Hr.
Qed.

Ltac silence :=
  repeat first
    [ apply silent_ret
    | apply silent_lift
    | apply silent_bind
    | reflexivity
    | intros ?
    | match goal with
      | |- silent (if ?b then _ else _) => destruct b
      | |- silent (match ?x with _ => _ end) => destruct x
      end ].

Section Scan.

Variable Filter : string -> string.
Variable m : File.
Variable fl : Flags.

(** The annotator never prints: it only rewrites the operand text. *)
Lemma annotate_silent (insns : list Instruction) (i : Z) (insn : Instruction) :
  silent (annotate Filter m fl insns i insn).
Proof.
  unfold annotate, markupAdrp, markupBranch, labelComment,
    callFindAddressSymbol, callGetCString.
  silence.
Qed.

(** The loop body, once the header and the annotator have returned. *)
Lemma loopBody_printed (funcStarts : option (list Z)) (insns : list Instruction)
    (i : Z) (insn insn' : Instruction) (th : list Event) :
  functionHeader Filter m fl funcStarts insn = (th, Ret tt) ->
  outcome (annotate Filter m fl insns i insn) = Ret insn' ->
  printed (trace (loopBody Filter m fl funcStarts insns i insn))
  = (printed th ++ [insnLine insn'])%list
  /\ outcome (loopBody Filter m fl funcStarts insns i insn) = Ret tt.
Proof.
  intros Hh Ha. unfold loopBody. rewrite Hh, bind_traced.
  pose proof (annotate_silent insns i insn) as Hs. unfold silent in Hs.
  destruct (annotate Filter m fl insns i insn) as [ta ra].
  simpl in Ha, Hs. subst ra. rewrite bind_traced.
  cbn [trace outcome fst snd printf].
  rewrite !printed_app, Hs. split; reflexivity.
Qed.

(** The header and the line of an instruction on a function start whose
    annotation and demangling return. *)
Theorem function_header_before_line (starts : list Z) (k : nat) (next : Z)
    (insns : list Instruction) (i : Z) (insn insn' : Instruction) :
  len starts <= MaxInt ->
  StronglySorted Z.lt starts ->
  0 <= Address insn -> next < 2 ^ 64 ->
  nth_error starts k = Some (Address insn) ->
  nth_error starts (S k) = Some next ->
  outcome (annotate Filter m fl insns i insn) = Ret insn' ->
  match FindAddressSymbol m (Address insn) with
  | Some sym =>
      forall sym', demangled Filter fl sym = Ret sym' ->
        printed (trace (loopBody Filter m fl (Some starts) insns i insn))
        = [newline ++ sym' ++ ":" ++ newline; insnLine insn']
        /\ outcome (loopBody Filter m fl (Some starts) insns i insn) = Ret tt
  | None =>
      printed (trace (loopBody Filter m fl (Some starts) insns i insn))
      = [insnLine insn']
      /\ outcome (loopBody Filter m fl (Some starts) insns i insn) = Ret tt
  end.
Proof.
  intros Hlen Hsorted Hlo Hhi Hk Hn Ha.
  assert (Hlt : Address insn < next)
    by (apply (ascending_nth starts Hsorted k (S k)); auto).
  assert (Haddr : uint64 (Address insn) = Address insn)
    by (unfold uint64; apply Z.mod_small; lia).
  assert (Hsz : uint64 (next - Address insn) = next - Address insn)
    by (unfold uint64; apply Z.mod_small; lia).
  assert (Hh : functionHeader Filter m fl (Some starts) insn =
               (r <- callFindAddressSymbol m (Address insn) ;;
                match r with
                | Some sym =>
                    sym' <- lift (demangled Filter fl sym) ;;
                    printf (newline ++ sym' ++ ":" ++ newline)
                | None => mret tt
                end)).
  { unfold functionHeader. rewrite Haddr.
    rewrite (isFunctionStart_entry starts _ next k Hlen Hsorted Hk Hn), Hsz.
    rewrite bind_lift_Ret, bind_ret.
    destruct (Z.eqb_spec (next - Address insn) 0); [lia|reflexivity]. }
  unfold callFindAddressSymbol in Hh. rewrite bind_traced in Hh.
  destruct (FindAddressSymbol m (Address insn)) as [sym|].
  - intros sym' Hdem. rewrite Hdem, bind_lift_Ret in Hh.
    apply (loopBody_printed _ insns i insn insn' _ Hh Ha).
  - apply (loopBody_printed _ insns i insn insn' _ Hh Ha).
Qed.

End Scan.

Lemma bind_assoc {A B C} (r : Run A) (k : A -> Run B) (k' : B -> Run C) :
  (y <- (x <- r ;; k x) ;; k' y) = (x <- r ;; y <- k x ;; k' y).
Proof.
  destruct r as [t [a|]]; simpl; [|reflexivity].
  destruct (k a) as [t1 [b|]]; simpl; [|reflexivity].
  destruct (k' b) as [t2 r2]. now rewrite app_assoc.
Qed.

(** The scan is its bodies one after the other: what it does on
    [pre ++ post] is what it does on [pre], then on [post] from index
    [len pre] on. *)
Lemma rangeLoop_app (body : Z -> Instruction -> Run unit)
    (pre post : list Instruction) :
  forall i,
    rangeLoop body i (pre ++ post) =
    (_ <- rangeLoop body i pre ;; rangeLoop body (i + len pre) post).
Proof.
  induction pre as [|insn pre IH]; intros i.
  - simpl. replace (i + len []) with i by (unfold len; simpl; lia).
    now destruct (rangeLoop body i post).
  - cbn [rangeLoop app]. rewrite IH, bind_assoc.
    replace (i + 1 + len pre) with (i + len (insn :: pre))
      by (unfold len; simpl List.length; lia).
    reflexivity.
Qed.

(** An instruction the scan reaches has its body run at its index: the
    output of the scan is the output up to the instruction, the output of
    its body, and whatever follows. *)
Lemma disLoop_reaches (Filter : string -> string) (m : File) (fl : Flags)
    (funcStarts : option (list Z)) (pre post : list Instruction)
    (insn : Instruction) (t : list Event) :
  let insns := (pre ++ insn :: post)%list in
  rangeLoop (loopBody Filter m fl funcStarts insns) 0 pre = (t, Ret tt) ->
  exists rest,
    printed (trace (disLoop Filter m fl funcStarts insns)) =
    (printed t
     ++ printed (trace (loopBody Filter m fl funcStarts insns (len pre) insn))
     ++ rest)%list.
Proof.
  intros insns Hpre. unfold disLoop. unfold insns at 2.
  rewrite rangeLoop_app, Hpre, bind_traced.
  cbn [rangeLoop]. replace (0 + len pre) with (len pre) by lia.
  destruct (loopBody Filter m fl funcStarts insns (len pre) insn)
    as [tb [[]|]].
  - rewrite bind_traced. cbn [trace fst]. rewrite !printed_app.
    eexists. reflexivity.
  - exists []. cbn [mbind Run_Monad trace fst].
    now rewrite printed_app, app_nil_r.
Qed.

End ScanFacts.

(** ** The command *)

Module CommandFacts.
Import Disass MachO Gapstone FunctionStartFacts AnnotatorFacts.

Lemma find_none_all {A} (f : A -> bool) (l : list A) :
  (forall x, In x l -> f x = false) -> find f l = None.
Proof.
  induction l as [|x l IH]; intros H; [reflexivity|].
  simpl. rewrite (H x (or_introl eq_refl)).
  apply IH. intros y Hy. apply H. now right.
Qed.

(** The test of the section loop accepts only a [__text] section whose
    range holds the start address. *)
Lemma inText_inside (startAddr : Z) (sec : Section) :
  0 <= Addr sec -> 0 <= Size sec ->
  inText startAddr sec = true ->
  Name sec = "__text" /\ Addr sec <= startAddr < Addr sec + Size sec.
Proof.
  intros Ha Hs. unfold inText. rewrite !andb_true_iff.
  intros [[Hn Hlo] Hhi].
  apply String.eqb_eq in Hn. apply Z.leb_le in Hlo. apply Z.ltb_lt in Hhi.
  split; [exact Hn|]. split; [exact Hlo|].
  unfold uint64 in Hhi.
  assert ((Addr sec + Size sec) mod 2 ^ 64 <= Addr sec + Size sec)
    by (apply Z.mod_le; lia).
  lia.
Qed.

Section Command.

Variable Filter : string -> string.
Variable Open : string -> result File.
Variable engine : Engine.
Variable maxAlloc : Z.

(** Outside every [__text] section nothing is read, decoded or printed. *)
Lemma disassembleAt_outside (m : File) (fl : Flags) (startAddr : Z) :
  (forall sec, In sec (Sections m) -> 0 <= Addr sec /\ 0 <= Size sec) ->
  (forall sec, In sec (Sections m) -> Name sec = "__text" ->
     ~ (Addr sec <= startAddr < Addr sec + Size sec)) ->
  disassembleAt Filter engine maxAlloc m fl startAddr
    = ([], Ret (Some "supplied vaddr not found in any __text section"))
  \/ disassembleAt Filter engine maxAlloc m fl startAddr = ([], Panic).
Proof.
  intros Hrange Hout. unfold disassembleAt.
  rewrite (find_none_all (inText startAddr) (Sections m)).
  - match goal with
    | |- context [mbind (lift ?r) _] => destruct r as [sz|]
    end; [|right; reflexivity].
    rewrite bind_lift_Ret.
    destruct (make maxAlloc sz) as [data|]; [left|right]; reflexivity.
  - intros sec Hin. destruct (inText startAddr sec) eqn:Hin'; [|reflexivity].
    destruct (Hrange sec Hin) as [Ha Hs].
    destruct (inText_inside startAddr sec Ha Hs Hin') as [Hn Hr].
    exfalso. exact (Hout sec Hin Hn Hr).
Qed.

(** The command needs a start location.  Without a symbol name and with a
    zero virtual address it returns an error (the one that asks for a
    vaddr when the file opens) and prints nothing; with a start address
    that lies in no [__text] section it prints nothing either and ends in
    the error "supplied vaddr not found in any __text section", unless a
    run-time panic of the buffer set-up stops it before. *)
Theorem start_location_required (fl : Flags) (args : list string)
    (arg0 : string) :
  index args 0 = Ret arg0 ->
  (symbolName fl = "" -> vaddr fl = 0 ->
   exists e, RunE Filter Open engine maxAlloc fl args = ([], Ret (Some e))
             /\ (forall m, Open arg0 = Ok m ->
                   e = "you must supply a vaddr to disassemble at"))
  /\ (forall (m : File) (startAddr : Z),
        Open arg0 = Ok m ->
        (symbolName fl <> ""
         /\ FindSymbolAddress m (symbolName fl) = Ok startAddr)
        \/ (symbolName fl = "" /\ vaddr fl = startAddr /\ startAddr <> 0) ->
        (forall sec, In sec (Sections m) -> 0 <= Addr sec /\ 0 <= Size sec) ->
        (forall sec, In sec (Sections m) -> Name sec = "__text" ->
           ~ (Addr sec <= startAddr < Addr sec + Size sec)) ->
        RunE Filter Open engine maxAlloc fl args
          = ([], Ret (Some "supplied vaddr not found in any __text section"))
        \/ RunE Filter Open engine maxAlloc fl args = ([], Panic)).
Proof.
  intros Harg. split.
  - intros Hsym Hv. unfold RunE. rewrite Harg, bind_lift_Ret, Hsym, Hv.
    destruct (Open arg0) as [m|e].
    + eexists. split; [reflexivity|]. intros; reflexivity.
    + eexists. split; [reflexivity|]. intros; discriminate.
  - intros m startAddr Hopen Hstart Hrange Hout.
    unfold RunE. rewrite Harg, bind_lift_Ret, Hopen.
    destruct Hstart as [[Hne Hfind]|(Hempty & Hv & Hnz)].
    + assert (Hlen : (0 <? Z.of_nat (String.length (symbolName fl))) = true).
      { destruct (symbolName fl); [congruence|].
        apply Z.ltb_lt. simpl String.length. lia. }
      rewrite Hlen, Hfind. now apply disassembleAt_outside.
    + rewrite Hempty, Hv.
      change (0 <? Z.of_nat (String.length "")) with false. cbv iota.
      destruct (Z.eqb_spec startAddr 0); [contradiction|].
      now apply disassembleAt_outside.
Qed.

End Command.

End CommandFacts.

(** ** The address translator *)

Module DyldFacts.
Import Sort SortFacts Dyld FunctionStartFacts.

Section Lookup.

(** Either of the two views: [base] is the start of the range searched. *)
Variable base : Mapping -> Z.

Let dense := follows base.

Lemma mappingFor_closure (table : list Mapping) (x : Z) (d : Mapping) :
  forall h, 0 <= h < len table ->
    (mp <- index table h ;; mret (x <? base mp + size mp))
    = Ret (x <? base (nth (Z.to_nat h) table d)
                + size (nth (Z.to_nat h) table d)).
Proof.
  intros h Hh. destruct (index_in_range table h Hh) as [mp Hmp].
  rewrite Hmp. simpl. apply index_inv in Hmp as [_ Hmp].
  now rewrite (nth_error_nth _ _ _ Hmp).
Qed.

(** In a table of non-empty ranges that follow one another, the binary
    search finds the mapping whose range holds [x]. *)
Lemma mappingFor_found (table : list Mapping) (mp : Mapping) (x : Z) :
  len table <= MaxInt ->
  Forall (fun mp => 0 < size mp) table ->
  StronglySorted dense table ->
  In mp table ->
  base mp <= x < base mp + size mp ->
  mappingFor base table x = Some mp.
Proof.
  intros Hlen Hsize Hsorted Hin Hx.
  destruct (In_nth_error _ _ Hin) as [k Hk].
  assert (Hkl : (k < List.length table)%nat)
    by (apply nth_error_Some; congruence).
  set (p := fun h => x <? base (nth (Z.to_nat h) table mp)
                          + size (nth (Z.to_nat h) table mp)).
  assert (Hnth : forall h a, nth_error table (Z.to_nat h) = Some a ->
                             p h = (x <? base a + size a)).
  { intros h a Ha. unfold p. now rewrite (nth_error_nth _ _ _ Ha). }
  unfold mappingFor, Search.
  destruct (searchLoop_least
              (fun i => mp <- index table i ;; mret (x <? base mp + size mp))
              p (Z.to_nat (len table)) 0 (len table))
    as (r & Hr & Hb & Hlo & Hhi); try lia.
  - unfold len. lia.
  - intros h Hh. now apply mappingFor_closure.
  - intros h j Hh Hhj Hj Hp.
    destruct (Z.eq_dec h j) as [->|Hne]; [exact Hp|].
    unfold len in Hj.
    destruct (nth_error table (Z.to_nat h)) as [a|] eqn:Eh;
      [|apply nth_error_None in Eh; lia].
    destruct (nth_error table (Z.to_nat j)) as [b|] eqn:Ej;
      [|apply nth_error_None in Ej; lia].
    rewrite (Hnth h a Eh) in Hp. rewrite (Hnth j b Ej).
    apply Z.ltb_lt in Hp. apply Z.ltb_lt.
    assert (dense a b)
      by (apply (sorted_nth dense table Hsorted (Z.to_nat h) (Z.to_nat j));
          auto; lia).
    assert (0 < size b).
    { rewrite Forall_forall in Hsize. apply Hsize.
      eapply nth_error_In; eauto. }
    unfold dense, follows in *. lia.
  - rewrite Hr.
    assert (Hpk : p (Z.of_nat k) = true).
    { rewrite (Hnth (Z.of_nat k) mp) by (now rewrite Nat2Z.id).
      apply Z.ltb_lt. lia. }
    assert (Hrk : r = Z.of_nat k).
    { destruct (Z.lt_trichotomy r (Z.of_nat k)) as [Hlt|[Heq|Hgt]];
        [|exact Heq|].
      - exfalso. unfold len in Hb.
        assert (Hpr : p r = true) by (apply Hhi; unfold len; lia).
        destruct (nth_error table (Z.to_nat r)) as [a|] eqn:Er;
          [|apply nth_error_None in Er; lia].
        rewrite (Hnth r a Er) in Hpr. apply Z.ltb_lt in Hpr.
        assert (dense a mp)
          by (apply (sorted_nth dense table Hsorted (Z.to_nat r) k);
              auto; lia).
        unfold dense, follows in *. lia.
      - exfalso. rewrite Hlo in Hpk by lia. discriminate. }
    rewrite Hrk, (index_nat _ _ _ Hk).
    destruct (Z.leb_spec (base mp) x); [reflexivity|lia].
Qed.

End Lookup.

Lemma insertByOffset_perm (mp : Mapping) (view : list Mapping) :
  Permutation (mp :: view) (insertByOffset mp view).
Proof.
  induction view as [|mp' view IH]; simpl; [reflexivity|].
  destruct (fileOffsetBase mp <=? fileOffsetBase mp'); [reflexivity|].
  rewrite perm_swap. now constructor.
Qed.

Lemma fileOffsetView_perm (table : list Mapping) :
  Permutation table (fileOffsetView table).
Proof.
  induction table as [|mp table IH]; simpl; [constructor|].
  rewrite <- insertByOffset_perm. now constructor.
Qed.

Lemma insertByOffset_sorted (mp : Mapping) (view : list Mapping) :
  StronglySorted byOffset view ->
  StronglySorted byOffset (insertByOffset mp view).
Proof.
  induction 1 as [|mp' view Hs IH Hall]; simpl.
  - repeat constructor.
  - destruct (Z.leb_spec (fileOffsetBase mp) (fileOffsetBase mp')) as [Hle|Hgt].
    + constructor; [now constructor|].
      constructor; [exact Hle|].
      rewrite Forall_forall in *. intros b Hb.
      specialize (Hall b Hb). unfold byOffset in *. lia.
    + constructor; [exact IH|].
      rewrite Forall_forall in *. intros b Hb.
      apply (Permutation_in _ (Permutation_sym (insertByOffset_perm mp view)))
        in Hb.
      destruct Hb as [<-|Hb]; [unfold byOffset; lia|now apply Hall].
Qed.

Lemma fileOffsetView_sorted (table : list Mapping) :
  StronglySorted byOffset (fileOffsetView table).
Proof.
  induction table as [|mp table IH]; simpl; [constructor|].
  now apply insertByOffset_sorted.
Qed.

(** Non-empty ranges that follow one another are pairwise distinct. *)
Lemma wellFormed_NoDup (table : list Mapping) :
  wellFormed table -> NoDup table.
Proof.
  intros [_ Hsize Hsorted _].
  induction Hsorted as [|a l Hs IH Hall]; constructor.
  - intros Hin. rewrite Forall_forall in Hall. specialize (Hall a Hin).
    inversion Hsize; subst. unfold follows in Hall. lia.
  - apply IH. now inversion Hsize.
Qed.

(** Ranges sorted by their start, pairwise distinct and disjoint, and not
    empty, follow one another. *)
Lemma sorted_disjoint_dense (view : list Mapping) :
  StronglySorted byOffset view ->
  NoDup view ->
  Forall (fun mp => 0 < size mp) view ->
  (forall a b, In a view -> In b view -> a = b \/
     fileOffsetBase a + size a <= fileOffsetBase b \/
     fileOffsetBase b + size b <= fileOffsetBase a) ->
  StronglySorted (follows fileOffsetBase) view.
Proof.
  induction 1 as [|a l Hs IH Hall]; intros Hnd Hsize Hdis; constructor.
  - apply IH.
    + now inversion Hnd.
    + now inversion Hsize.
    + intros x y Hx Hy. apply Hdis; now right.
  - rewrite Forall_forall in *. intros b Hb.
    specialize (Hall b Hb). unfold byOffset in Hall.
    assert (0 < size b) by (apply Hsize; now right).
    unfold follows.
    destruct (Hdis a b (or_introl eq_refl) (or_intror Hb)) as [->|[H'|H']].
    + inversion Hnd; subst. contradiction.
    + exact H'.
    + lia.
Qed.

Lemma fileOffsetView_dense (table : list Mapping) :
  wellFormed table ->
  StronglySorted (follows fileOffsetBase) (fileOffsetView table).
Proof.
  intros Hwf. pose proof (fileOffsetView_perm table) as Hperm.
  apply sorted_disjoint_dense.
  - apply fileOffsetView_sorted.
  - apply (Permutation_NoDup Hperm). now apply wellFormed_NoDup.
  - apply (Permutation_Forall Hperm). now destruct Hwf.
  - intros a b Ha Hb. destruct Hwf as [_ _ _ Hdis].
    apply Hdis; apply (Permutation_in _ (Permutation_sym Hperm)); assumption.
Qed.


End DyldFacts.

(** ** The properties on the sample inputs *)

Module Examples.
Import Disass MachO Gapstone Sample.
Import FunctionStartFacts AnnotatorFacts ScanFacts CommandFacts DyldFacts.

Lemma adrp_ldr_symbol_comment_witness :
  annotate noFilter withSymbols (flags true false) [adrp_x8; ldr_x8] 1 ldr_x8
  = ([CallFindAddressSymbol 0x100008cb8],
     Ret (setOpStr ldr_x8 "x8, [x8, #0xcb8] // _table"))
  /\ prefix "x8, [x8, #0xcb8]" "x8, [x8, #0xcb8] // _table" = true.
Proof.
  apply (adrp_ldr_symbol_comment noFilter withSymbols (flags true false)
           [adrp_x8; ldr_x8] 1 adrp_x8 ldr_x8
           (regOp x8) (immOp 0x100008000) (regOp x8) (memOp x8 0xcb8)
           x8 0x100008000 "_table" "_table"); reflexivity.
Defined.

(** Without the verbose flag the same pair is printed as decoded: the
    symbol at PAGE + 0xcb8 is known, and the [ldr] gets no comment.  With
    the verbose and the demangle flag the comment is not the symbol
    [__Z3barv] but its demangled form. *)
Lemma adrp_ldr_without_verbose :
  index [adrp_x8; ldr_x8] 0 = Ret adrp_x8
  /\ index [adrp_x8; ldr_x8] 1 = Ret ldr_x8
  /\ FindAddressSymbol withSymbols (uint64 (0x100008000 + 0xcb8))
     = Some "_table"
  /\ annotate noFilter withSymbols (flags false false)
       [adrp_x8; ldr_x8] 1 ldr_x8 = ([], Ret ldr_x8)
  /\ printed (trace (disLoop noFilter withSymbols (flags false false)
                       (FunctionStarts withSymbols) [adrp_x8; ldr_x8]))
     = [insnLine adrp_x8; insnLine ldr_x8]
  /\ FindAddressSymbol mangled (uint64 (0x100008000 + 0xcb8))
     = Some "__Z3barv"
  /\ annotate toyFilter mangled (flags true true)
       [adrp_x8; ldr_x8] 1 ldr_x8
     = ([CallFindAddressSymbol 0x100008cb8],
        Ret (setOpStr ldr_x8 "x8, [x8, #0xcb8] // bar()"))
  /\ OpStr ldr_x8 <> OpStr ldr_x8 ++ " // _table".
Proof.
  repeat split; try (vm_compute; reflexivity).
  vm_compute. discriminate.
Qed.

Lemma branch_operand_replaced_witness :
  annotate noFilter withSymbols (flags false false) [bl_known] 0 bl_known
  = ([CallFindAddressSymbol 0x100005000], Ret (setOpStr bl_known "_helper")).
Proof.
  apply (proj1 (branch_operand_replaced noFilter withSymbols
                  (flags false false) [bl_known] 0 bl_known
                  (immOp 0x100005000) [] eq_refl eq_refl eq_refl)
           "_helper").
  reflexivity.
Defined.

(** C4: after [adrp x8, #0x100008000] the code compares the [adrp]
    register with the destination register of an [add], not with its base
    register: [add x0, x8, #0x10] (base [x8]) is looked up at the page
    alone and loses the comment of the string at page + [0x10], and
    [add x8, x9, #0x10] (base [x9]) is looked up at the page plus [0x10]
    and gets it. *)
Theorem adrp_add_compares_destination :
  adrpTarget adrp_x8 add_x0_x8 = Ret 0x100008000
  /\ adrpTarget adrp_x8 add_x8_x9 = Ret 0x100008010
  /\ GetCString withSymbols 0x100008010 = Some "hello"
  /\ annotate noFilter withSymbols (flags true false)
       [adrp_x8; add_x0_x8] 1 add_x0_x8
     = ([CallFindAddressSymbol 0x100008000; CallGetCString 0x100008000],
        Ret add_x0_x8)
  /\ annotate noFilter withSymbols (flags true false)
       [adrp_x8; add_x8_x9] 1 add_x8_x9
     = ([CallFindAddressSymbol 0x100008010; CallGetCString 0x100008010],
        Ret (setOpStr add_x8_x9 "x8, x9, #0x10 // hello")).
Proof. repeat split; vm_compute; reflexivity. Qed.

Lemma label_symbol_then_cstring_witness :
  markupAdrp noFilter withSymbols (flags true false)
    [adrp_x8; ldr_x8] 1 ldr_x8
  = ([CallFindAddressSymbol 0x100008cb8],
     Ret (setOpStr ldr_x8 "x8, [x8, #0xcb8] // _table")).
Proof.
  apply (label_symbol_then_cstring noFilter withSymbols (flags true false)
           [adrp_x8; ldr_x8] 1 adrp_x8 ldr_x8 0x100008cb8);
    solve [reflexivity | left; reflexivity].
Defined.

Lemma quiet_keeps_operand_text_witness :
  (annotate noFilter withSymbols (flags false false)
     [adrp_x8; ldr_x8] 1 ldr_x8 = ([], Ret ldr_x8)
   /\ forall funcStarts,
        loopBody noFilter withSymbols (flags false false) funcStarts
          [adrp_x8; ldr_x8] 1 ldr_x8 =
        (_ <- functionHeader noFilter withSymbols (flags false false)
                funcStarts ldr_x8 ;;
         printf (insnLine ldr_x8)))
  /\ annotate noFilter withSymbols (flags true false) [bl_known] 0 bl_known
     = annotate noFilter withSymbols (flags false false) [bl_known] 0 bl_known.
Proof.
  split.
  - apply (proj1 (quiet_keeps_operand_text noFilter withSymbols
                    (flags false false) [adrp_x8; ldr_x8] 1 ldr_x8));
      [reflexivity | left; reflexivity].
  - apply (proj2 (quiet_keeps_operand_text noFilter withSymbols
                    (flags false false) [bl_known] 0 bl_known));
      reflexivity.
Defined.

Lemma function_header_before_line_witness :
  printed (trace (loopBody noFilter withSymbols (flags false false)
                    (Some [100; 140; 200]) [ret_at 140] 0 (ret_at 140)))
  = [newline ++ "_main" ++ ":" ++ newline; insnLine (ret_at 140)]
  /\ outcome (loopBody noFilter withSymbols (flags false false)
                (Some [100; 140; 200]) [ret_at 140] 0 (ret_at 140)) = Ret tt.
Proof.
  apply (function_header_before_line noFilter withSymbols (flags false false)
           [100; 140; 200] 1 200 [ret_at 140] 0 (ret_at 140) (ret_at 140));
    try reflexivity.
  - vm_compute. discriminate.
  - repeat constructor.
  - simpl. lia.
Defined.

(** In a stripped image the instruction at the function start 140 is
    printed without a header: no symbol is known at 140.  Under the
    demangle flag the header of the symbol [__Z3barv] is not that name but
    its demangled form. *)
Lemma function_start_without_symbol :
  In 140 [100; 140; 200]
  /\ Address (ret_at 140) = 140
  /\ FindAddressSymbol stripped 140 = None
  /\ disLoop noFilter stripped (flags false false)
       (FunctionStarts stripped) [ret_at 140]
     = ([CallFindAddressSymbol 140; Printf (insnLine (ret_at 140))], Ret tt)
  /\ FindAddressSymbol mangled 140 = Some "__Z3barv"
  /\ printed (trace (disLoop toyFilter mangled (flags false true)
                       (FunctionStarts mangled) [ret_at 140]))
     = [newline ++ "bar()" ++ ":" ++ newline; insnLine (ret_at 140)].
Proof.
  repeat split; try (vm_compute; reflexivity).
  right; left; reflexivity.
Qed.

Lemma start_location_required_witness :
  (exists e,
     RunE noFilter openImage engine maxAlloc (flagsAt 0) ["kernel"] = ([], Ret (Some e))
     /\ (forall m, openImage "kernel" = Ok m ->
           e = "you must supply a vaddr to disassemble at"))
  /\ (RunE noFilter openImage engine maxAlloc (flagsAt 0x100006000) ["kernel"]
        = ([], Ret (Some "supplied vaddr not found in any __text section"))
      \/ RunE noFilter openImage engine maxAlloc (flagsAt 0x100006000) ["kernel"]
         = ([], Panic)).
Proof.
  split.
  - apply (proj1 (start_location_required noFilter openImage engine maxAlloc
                    (flagsAt 0) ["kernel"] "kernel" eq_refl));
      reflexivity.
  - apply (proj2 (start_location_required noFilter openImage engine maxAlloc
                    (flagsAt 0x100006000) ["kernel"] "kernel" eq_refl)
             _ 0x100006000 eq_refl).
    + right. split; [reflexivity|]. split; [reflexivity|discriminate].
    + intros sec [<-|[]]. simpl. lia.
    + intros sec [<-|[]] _. simpl. lia.
Defined.

Lemma cacheMappings_wellFormed : Dyld.wellFormed cacheMappings.
Proof.
  constructor.
  - vm_compute. discriminate.
  - repeat constructor.
  - repeat constructor. unfold Dyld.follows. simpl. lia.
  - intros a b [<-|[<-|[]]] [<-|[<-|[]]]; simpl; auto; right; lia.
Qed.


End Examples.

(** ** More on the function-boundary lookup and the binary search *)

Module LookupProperties.
Import Sort SortFacts Disass FunctionStartFacts.

(** [sort.Search] on a closure that does not panic on [[0, n)] returns an
    index of [[0, n]]; when the closure is monotone (false, then true) the
    index is the first at which it holds, or [n] when it holds nowhere. *)
Theorem Search_first_true (n : Z) (f : Z -> Res bool) (p : Z -> bool) :
  0 <= n <= MaxInt ->
  (forall h, 0 <= h < n -> f h = Ret (p h)) ->
  exists r, Search n f = Ret r /\ 0 <= r <= n /\
    ((forall h k, 0 <= h -> h <= k -> k < n -> p h = true -> p k = true) ->
     (forall k, 0 <= k < r -> p k = false) /\
     (forall k, r <= k < n -> p k = true)).
Proof.
  intros Hn Hf. unfold Search.
  destruct (searchLoop_bounds f p (Z.to_nat n) 0 n) as (r & Hr & Hb);
    try lia; [exact Hf|].
  exists r. split; [exact Hr|]. split; [exact Hb|].
  intros Hmono.
  destruct (searchLoop_least f p (Z.to_nat n) 0 n) as (r' & Hr' & _ & Hlo & Hhi);
    try lia; [exact Hf|exact Hmono|].
  assert (r' = r) by congruence. subst r'. split; assumption.
Qed.

(** Whatever the table, sorted or not: an address that is no entry has
    size 0, so a non-zero size or a panic is only ever seen at an entry. *)
Theorem only_entries_are_starts (starts : list Z) (addr : Z) :
  len starts <= MaxInt ->
  (~ In addr starts -> isFunctionStart starts addr = Ret 0)
  /\ (forall sz, isFunctionStart starts addr = Ret sz -> sz <> 0 ->
        In addr starts)
  /\ (isFunctionStart starts addr = Panic -> In addr starts).
Proof.
  intros Hlen.
  assert (H0 : ~ In addr starts -> isFunctionStart starts addr = Ret 0)
    by (now apply isFunctionStart_no_entry).
  split; [exact H0|].
  destruct (in_dec Z.eq_dec addr starts) as [Hin|Hnot].
  - split; intros; exact Hin.
  - rewrite (H0 Hnot). split.
    + intros sz [= <-] Hsz. contradiction.
    + discriminate.
Qed.

(** On a strictly ascending table of 64-bit addresses the size of an entry
    that has a successor is the distance to it, which is positive. *)
Theorem entry_size_is_distance (starts : list Z) (k : nat) (addr next : Z) :
  len starts <= MaxInt ->
  StronglySorted Z.lt starts ->
  Forall (fun s => 0 <= s < 2 ^ 64) starts ->
  nth_error starts k = Some addr ->
  nth_error starts (S k) = Some next ->
  isFunctionStart starts addr = Ret (next - addr) /\ 0 < next - addr.
Proof.
  intros Hlen Hsorted Hrange Hk Hn.
  assert (addr < next) by (apply (ascending_nth starts Hsorted k (S k)); auto).
  rewrite Forall_forall in Hrange.
  assert (0 <= addr < 2 ^ 64) by (apply Hrange; eapply nth_error_In; eauto).
  assert (0 <= next < 2 ^ 64) by (apply Hrange; eapply nth_error_In; eauto).
  rewrite (isFunctionStart_entry starts addr next k Hlen Hsorted Hk Hn).
  unfold uint64. rewrite Z.mod_small by lia. split; [reflexivity|lia].
Qed.

(** On every non-empty strictly ascending table the lookup of the last
    entry panics: there is no entry after it to measure the size with. *)
Theorem last_entry_has_no_size (starts : list Z) :
  starts <> [] ->
  len starts <= MaxInt ->
  StronglySorted Z.lt starts ->
  isFunctionStart starts (last starts 0) = Panic.
Proof.
  intros Hne Hlen Hsorted.
  rewrite (app_removelast_last 0 Hne) in Hlen, Hsorted |- * at 1.
  now apply isFunctionStart_last_entry.
Qed.

End LookupProperties.

(** ** The demangling helper *)

Module DemangleProperties.
Import Disass.

Lemma substring_all (s : string) : substring 0 (String.length s) s = s.
Proof. induction s as [|c s IH]; simpl; [reflexivity|now rewrite IH]. Qed.

Lemma sliceFrom_0 (s : string) : sliceFrom s 0 = s.
Proof.
  unfold sliceFrom. change (Z.to_nat 0) with 0%nat.
  rewrite Nat.sub_0_r. apply substring_all.
Qed.

Lemma sliceFrom_1 (c : ascii) (s : string) : sliceFrom (String c s) 1 = s.
Proof.
  unfold sliceFrom. change (Z.to_nat 1) with 1%nat. simpl.
  rewrite Nat.sub_0_r. apply substring_all.
Qed.

Lemma sliceFrom_2 (c d : ascii) (s : string) :
  sliceFrom (String c (String d s)) 2 = s.
Proof.
  unfold sliceFrom. change (Z.to_nat 2) with 2%nat. simpl.
  rewrite Nat.sub_0_r. apply substring_all.
Qed.

Lemma byteAt_0 (c : ascii) (s : string) : byteAt (String c s) 0 = Ret c.
Proof. reflexivity. Qed.

Lemma byteAt_1 (c d : ascii) (s : string) :
  byteAt (String c (String d s)) 1 = Ret d.
Proof. reflexivity. Qed.

Section Demangle.

Variable Filter : string -> string.

Lemma doDemangle_panic_cases (name : string) :
  doDemangle Filter name = Panic <->
  name = "" \/ name = "." \/ name = "$".
Proof.
  unfold doDemangle. destruct name as [|c [|d s]].
  - split; [now left|reflexivity].
  - rewrite byteAt_0. cbn [mbind Res_Monad].
    destruct (Ascii.eqb_spec c ".") as [->|Hdot].
    + split; [now right; left|reflexivity].
    + destruct (Ascii.eqb_spec c "$") as [->|Hdollar].
      * split; [now right; right|reflexivity].
      * cbn [orb]. rewrite byteAt_0. cbn [mbind Res_Monad].
        split.
        -- destruct (c =? "_")%char;
             match goal with
             | |- context [if ?b then _ else _] => destruct b
             end; discriminate.
        -- intros [H|[H|H]]; congruence.
  - split; [|intros [H|[H|H]]; discriminate].
    rewrite byteAt_0. cbn [mbind Res_Monad].
    destruct ((c =? ".")%char || (c =? "$")%char);
      [rewrite byteAt_1|rewrite byteAt_0]; cbn [mbind Res_Monad];
      match goal with
      | |- context [(?x =? "_")%char] => destruct (x =? "_")%char
      end;
      match goal with
      | |- context [if ?b then _ else _] => destruct b
      end; discriminate.
Qed.

(** [doDemangle] panics on exactly three names: the empty one, ["."] and
    ["$"] (it reads [name[0]], and [name[1]] after a leading dot or
    dollar). *)
Theorem doDemangle_panics_iff (name : string) :
  doDemangle Filter name = Panic <->
  name = "" \/ name = "." \/ name = "$".
Proof. exact (doDemangle_panic_cases name). Qed.

(** What is stripped before [demangle.Filter] sees the name and what is
    put back after it: a leading underscore is stripped, also after a dot
    or a dollar; when the filter changes the rest, a leading dot is kept in
    front of its result and a leading dollar is dropped; when it does not,
    the name comes back whole. *)
Theorem doDemangle_prefixes (rest : string) :
  doDemangle Filter (String "_" rest)
  = Ret (if (Filter rest =? rest)%string then String "_" rest
         else Filter rest)
  /\ doDemangle Filter (String "." (String "_" rest))
     = Ret (if (Filter rest =? rest)%string
            then String "." (String "_" rest)
            else "." ++ Filter rest)
  /\ doDemangle Filter (String "$" (String "_" rest))
     = Ret (if (Filter rest =? rest)%string
            then String "$" (String "_" rest)
            else Filter rest).
Proof.
  unfold doDemangle. repeat split.
  - rewrite byteAt_0. cbn [mbind Res_Monad].
    change (("_" =? ".")%char || ("_" =? "$")%char) with false. cbv iota.
    rewrite byteAt_0. cbn [mbind Res_Monad].
    change ("_" =? "_")%char with true. cbv iota.
    change (0 + 1) with 1. rewrite sliceFrom_1.
    change ("_" =? ".")%char with false.
    destruct (Filter rest =? rest)%string; reflexivity.
  - rewrite byteAt_0. cbn [mbind Res_Monad].
    change (("." =? ".")%char || ("." =? "$")%char) with true. cbv iota.
    rewrite byteAt_1. cbn [mbind Res_Monad].
    change ("_" =? "_")%char with true. cbv iota.
    change (1 + 1) with 2. rewrite sliceFrom_2.
    change ("." =? ".")%char with true.
    destruct (Filter rest =? rest)%string; reflexivity.
  - rewrite byteAt_0. cbn [mbind Res_Monad].
    change (("$" =? ".")%char || ("$" =? "$")%char) with true. cbv iota.
    rewrite byteAt_1. cbn [mbind Res_Monad].
    change ("_" =? "_")%char with true. cbv iota.
    change (1 + 1) with 2. rewrite sliceFrom_2.
    change ("$" =? ".")%char with false.
    destruct (Filter rest =? rest)%string; reflexivity.
Qed.

(** With a filter that recognises nothing, every name comes back as it
    is. *)
Theorem doDemangle_unmangled (name : string) :
  (forall s, Filter s = s) ->
  name <> "" -> name <> "." -> name <> "$" ->
  doDemangle Filter name = Ret name.
Proof.
  intros Hid H1 H2 H3.
  destruct (doDemangle Filter name) as [r|] eqn:Hd.
  - unfold doDemangle in Hd.
    destruct (byteAt name 0) as [c0|]; [|discriminate].
    cbn [mbind Res_Monad] in Hd.
    destruct (byteAt name _) as [cs|]; [|discriminate].
    cbn [mbind Res_Monad] in Hd.
    rewrite Hid, String.eqb_refl in Hd. now injection Hd as <-.
  - exfalso. apply doDemangle_panic_cases in Hd. tauto.
Qed.

End Demangle.

End DemangleProperties.

(** ** [hex2int] *)

Module HexProperties.
Import Strings Strconv Disass.

Local Abbreviation maxUint64 := 18446744073709551615.
Local Abbreviation cutoff16 := 1152921504606846976.

Lemma acc_below (d : Hexadecimal.uint) :
  forall acc, (acc <= Pos.of_hex_uint_acc d acc)%positive.
Proof.
  induction d; intros acc; cbn [Pos.of_hex_uint_acc];
    try (etransitivity; [|apply IHd]); lia.
Qed.

Ltac digit_step :=
  cbn [NilEmpty.string_of_uint parseLoop];
  match goal with
  | |- context [digit (byteOf ?c)] =>
      let v := eval vm_compute in (digit (byteOf c)) in
      change (digit (byteOf c)) with v
  end;
  cbv iota beta;
  match goal with
  | |- context [?d >=? 16] =>
      let v := eval vm_compute in (d >=? 16) in
      change (d >=? 16) with v
  end;
  cbv iota.

Lemma geb_false (n c : Z) : n < c -> (n >=? c) = false.
Proof. intros H. rewrite Z.geb_leb. now apply Z.leb_gt. Qed.

Lemma step_in_range (n d : Z) :
  0 <= n -> 0 <= d < 16 -> n * 16 + d < 2 ^ 64 ->
  (n >=? cutoff16) = false
  /\ uint64 (n * 16) = n * 16
  /\ uint64 (n * 16 + d) = n * 16 + d
  /\ ((n * 16 + d <? n * 16) || (n * 16 + d >? maxUint64)) = false.
Proof.
  intros Hn Hd Hlt. unfold uint64.
  rewrite !Z.mod_small by lia.
  repeat split; try reflexivity.
  - apply geb_false. lia.
  - apply orb_false_iff. split; [apply Z.ltb_ge; lia|].
    rewrite Z.gtb_ltb. apply Z.ltb_ge. lia.
Qed.

(** The loop on the digits of [d], read after the digits of [acc]. *)
Lemma parseLoop_digits (d : Hexadecimal.uint) :
  forall acc : positive,
    Z.pos (Pos.of_hex_uint_acc d acc) < 2 ^ 64 ->
    parseLoop 16 maxUint64 cutoff16 (Z.pos acc) (NilEmpty.string_of_uint d)
    = (Z.pos (Pos.of_hex_uint_acc d acc), None).
Proof.
  induction d; intros acc Hlt; cbn [Pos.of_hex_uint_acc] in Hlt |- *;
    [reflexivity|..];
    digit_step;
    match type of Hlt with
    | Z.pos (Pos.of_hex_uint_acc _ ?acc') < _ =>
        pose proof (acc_below d acc') as Hle;
        match goal with
        | |- context [uint64 (uint64 (Z.pos acc * 16) + ?k)] =>
            destruct (step_in_range (Z.pos acc) k) as (H1 & H2 & H3 & H4);
            [lia|lia|lia|];
            rewrite H1, H2, H3, H4; cbv iota;
            replace (Z.pos acc * 16 + k) with (Z.pos acc') by lia;
            apply IHd; exact Hlt
        end
    end.
Qed.

(** The loop on the digits of [d], leading zeros included. *)
Lemma parseLoop_number (d : Hexadecimal.uint) :
  Z.of_N (Pos.of_hex_uint d) < 2 ^ 64 ->
  parseLoop 16 maxUint64 cutoff16 0 (NilEmpty.string_of_uint d)
  = (Z.of_N (Pos.of_hex_uint d), None).
Proof.
  induction d; intros Hlt; cbn [Pos.of_hex_uint] in Hlt |- *;
    [reflexivity|..];
    digit_step;
    change (0 >=? cutoff16) with false; cbv iota;
    change (uint64 (0 * 16)) with 0;
    match goal with
    | |- context [uint64 (0 + ?k)] =>
        let v := eval vm_compute in (uint64 (0 + k)) in
        change (uint64 (0 + k)) with v
    end;
    match goal with
    | |- context [(?a <? ?b) || (?c >? ?e)] =>
        let v := eval vm_compute in ((a <? b) || (c >? e)) in
        change ((a <? b) || (c >? e)) with v
    end;
    cbv iota;
    first [ apply IHd; exact Hlt
          | apply parseLoop_digits; exact Hlt ].
Qed.

Lemma ParseUint_digits (d : Hexadecimal.uint) :
  Z.of_N (Pos.of_hex_uint d) < 2 ^ 64 ->
  ParseUint (NilZero.string_of_uint d) 16 64
  = (Z.of_N (Pos.of_hex_uint d), None).
Proof.
  intros Hlt. unfold ParseUint.
  change ((2 ^ 64 - 1) / 16 + 1) with cutoff16.
  change (uint64 (Z.shiftl 1 64 - 1)) with maxUint64.
  destruct d; try reflexivity;
    unfold NilZero.string_of_uint;
    cbn [NilEmpty.string_of_uint String.eqb];
    cbv iota;
    apply (parseLoop_number _ Hlt).
Qed.

(** Hexadecimal digits hold no ["#0x"] to replace. *)
Lemma replace_digits (d : Hexadecimal.uint) :
  replaceFrom "#0x" "" 0 (NilEmpty.string_of_uint d)
  = NilEmpty.string_of_uint d.
Proof.
  induction d; cbn [NilEmpty.string_of_uint]; [reflexivity|..];
    cbn [replaceFrom];
    match goal with
    | |- context [prefix ?p ?s] =>
        change (prefix p s) with false
    end;
    cbv iota; now rewrite IHd.
Qed.

Lemma replace_number (d : Hexadecimal.uint) :
  replaceFrom "#0x" "" 0 (NilZero.string_of_uint d)
  = NilZero.string_of_uint d.
Proof. destruct d; try reflexivity; apply replace_digits. Qed.

Lemma replace_prefixed (s : string) :
  replaceFrom "#0x" "" 0 ("#0x" ++ s) = replaceFrom "#0x" "" 0 s.
Proof.
  pose proof (AnnotatorFacts.prefix_append "#0x" s) as Hp.
  cbn [append replaceFrom] in Hp |- *. rewrite Hp. reflexivity.
Qed.

(** Round trip with the [%x] verb: [hex2int] reads an immediate printed
    as ["#0x..."] back to its value, for every 64-bit value. *)
Theorem hex2int_of_printed (a : Z) :
  0 <= a < 2 ^ 64 ->
  hex2int ("#0x" ++ fmtHex a) = a.
Proof.
  intros Ha. unfold hex2int, ReplaceAll, fmtHex.
  set (d := N.to_hex_uint (Z.to_N a)).
  rewrite replace_prefixed, replace_number.
  assert (Hd : Pos.of_hex_uint d = Z.to_N a)
    by (apply HexadecimalN.Unsigned.of_to).
  rewrite ParseUint_digits by (rewrite Hd, Z2N.id; lia).
  rewrite Hd, Z2N.id by lia. unfold uint64. apply Z.mod_small. lia.
Qed.

(** The loop on digits that run beyond 64 bits. *)
Lemma parseLoop_overflow (d : Hexadecimal.uint) :
  forall acc : positive,
    Z.pos acc < 2 ^ 64 ->
    2 ^ 64 <= Z.pos (Pos.of_hex_uint_acc d acc) ->
    parseLoop 16 maxUint64 cutoff16 (Z.pos acc) (NilEmpty.string_of_uint d)
    = (maxUint64, Some ErrRange).
Proof.
  induction d; intros acc Hacc Hge; cbn [Pos.of_hex_uint_acc] in Hge |- *;
    [lia|..];
    digit_step;
    (destruct (Z.geb_spec (Z.pos acc) cutoff16) as [Hcut|Hcut];
     [reflexivity|]);
    match type of Hge with
    | _ <= Z.pos (Pos.of_hex_uint_acc _ ?acc') =>
        match goal with
        | |- context [uint64 (uint64 (Z.pos acc * 16) + ?k)] =>
            destruct (step_in_range (Z.pos acc) k) as (_ & H2 & H3 & H4);
            [lia|lia|lia|];
            rewrite H2, H3, H4; cbv iota;
            replace (Z.pos acc * 16 + k) with (Z.pos acc') by lia;
            apply IHd; [lia|exact Hge]
        end
    end.
Qed.

Lemma parseLoop_number_overflow (d : Hexadecimal.uint) :
  2 ^ 64 <= Z.of_N (Pos.of_hex_uint d) ->
  parseLoop 16 maxUint64 cutoff16 0 (NilEmpty.string_of_uint d)
  = (maxUint64, Some ErrRange).
Proof.
  induction d; intros Hge; cbn [Pos.of_hex_uint] in Hge |- *;
    [simpl in Hge; lia|..];
    digit_step;
    change (0 >=? cutoff16) with false; cbv iota;
    change (uint64 (0 * 16)) with 0;
    match goal with
    | |- context [uint64 (0 + ?k)] =>
        let v := eval vm_compute in (uint64 (0 + k)) in
        change (uint64 (0 + k)) with v
    end;
    match goal with
    | |- context [(?a <? ?b) || (?c >? ?e)] =>
        let v := eval vm_compute in ((a <? b) || (c >? e)) in
        change ((a <? b) || (c >? e)) with v
    end;
    cbv iota;
    first [ apply IHd; exact Hge
          | apply parseLoop_overflow; [reflexivity|exact Hge] ].
Qed.

Lemma ParseUint_overflow (d : Hexadecimal.uint) :
  2 ^ 64 <= Z.of_N (Pos.of_hex_uint d) ->
  ParseUint (NilZero.string_of_uint d) 16 64 = (maxUint64, Some ErrRange).
Proof.
  intros Hge. unfold ParseUint.
  change ((2 ^ 64 - 1) / 16 + 1) with cutoff16.
  change (uint64 (Z.shiftl 1 64 - 1)) with maxUint64.
  destruct d; try (simpl in Hge; lia);
    unfold NilZero.string_of_uint;
    cbn [NilEmpty.string_of_uint String.eqb];
    cbv iota;
    apply (parseLoop_number_overflow _ Hge).
Qed.

(** Beyond 64 bits [hex2int] saturates: the range error of [ParseUint] is
    dropped and the largest 64-bit value is what comes back. *)
Theorem hex2int_saturates (a : Z) :
  2 ^ 64 <= a ->
  hex2int ("#0x" ++ fmtHex a) = 2 ^ 64 - 1.
Proof.
  intros Ha. unfold hex2int, ReplaceAll, fmtHex.
  set (d := N.to_hex_uint (Z.to_N a)).
  rewrite replace_prefixed, replace_number.
  assert (Hd : Pos.of_hex_uint d = Z.to_N a)
    by (apply HexadecimalN.Unsigned.of_to).
  assert (Hge : 2 ^ 64 <= Z.of_N (Pos.of_hex_uint d))
    by (rewrite Hd, Z2N.id; lia).
  rewrite (ParseUint_overflow _ Hge). reflexivity.
Qed.

(** A plain ["0x"] prefix is not understood: base 16 is explicit, so [x]
    is a syntax error, the error is dropped and the result is 0. *)
Theorem hex2int_plain_prefix (s : string) :
  hex2int (String "0" (String "x" s)) = 0.
Proof. reflexivity. Qed.

End HexProperties.

(** ** More on the annotator and the scan *)

Module ScanProperties.
Import Disass MachO Gapstone FunctionStartFacts AnnotatorFacts ScanFacts.

Lemma outcome_bind {A B} (r : Run A) (k : A -> Run B) (b : B) :
  outcome (x <- r ;; k x) = Ret b ->
  exists a, outcome r = Ret a /\ outcome (k a) = Ret b.
Proof.
  destruct r as [t [a|]]; simpl; [|discriminate].
  destruct (k a) as [t' r'] eqn:Hk. simpl. intros ->.
  exists a. rewrite Hk. split; reflexivity.
Qed.

Ltac split_outcome H :=
  repeat match type of H with
    | outcome (mbind _ _) = Ret _ =>
        let a := fresh "a" in
        let Ha := fresh "Ha" in
        apply outcome_bind in H; destruct H as (a & Ha & H)
    | outcome (if ?b then _ else _) = Ret _ => destruct b
    | outcome (match ?x with _ => _ end) = Ret _ => destruct x
    end.

Section Annotator.

Variable Filter : string -> string.
Variable m : File.
Variable fl : Flags.

Lemma labelComment_keeps (a : Z) (insn insn' : Instruction) :
  outcome (labelComment Filter m fl a insn) = Ret insn' ->
  Address insn' = Address insn /\ Mnemonic insn' = Mnemonic insn
  /\ Arm64 insn' = Arm64 insn.
Proof.
  rewrite labelComment_eq.
  destruct (FindAddressSymbol m (uint64 a)); cbn [outcome snd].
  - destruct (demangled Filter fl s); [|discriminate].
    intros [= <-]. repeat split.
  - destruct (GetCString m (uint64 a)); intros [= <-]; repeat split.
Qed.

Lemma markupAdrp_keeps (insns : list Instruction) (i : Z)
    (insn insn' : Instruction) :
  outcome (markupAdrp Filter m fl insns i insn) = Ret insn' ->
  Address insn' = Address insn /\ Mnemonic insn' = Mnemonic insn
  /\ Arm64 insn' = Arm64 insn.
Proof.
  unfold markupAdrp. intros H. split_outcome H;
    try (injection H as <-; repeat split; fail).
  all: try (apply labelComment_keeps in H; exact H).
Qed.

Lemma markupBranch_keeps (insn insn' : Instruction) :
  outcome (markupBranch Filter m fl insn) = Ret insn' ->
  Address insn' = Address insn /\ Mnemonic insn' = Mnemonic insn
  /\ Arm64 insn' = Arm64 insn.
Proof.
  unfold markupBranch. intros H. split_outcome H;
    try (injection H as <-; repeat split; fail).
Qed.

(** The annotator prints nothing and changes nothing but the operand text:
    address, mnemonic and decoded operands of the instruction it returns
    are those of the decoder. *)
Theorem annotate_only_operand_text (insns : list Instruction) (i : Z)
    (insn : Instruction) :
  silent (annotate Filter m fl insns i insn)
  /\ forall insn',
       outcome (annotate Filter m fl insns i insn) = Ret insn' ->
       Address insn' = Address insn /\ Mnemonic insn' = Mnemonic insn
       /\ Arm64 insn' = Arm64 insn.
Proof.
  split; [apply annotate_silent|].
  intros insn' H. unfold annotate in H.
  apply outcome_bind in H. destruct H as (insn1 & H1 & H2).
  apply markupAdrp_keeps in H1. apply markupBranch_keeps in H2.
  destruct H1 as (A1 & M1 & R1). destruct H2 as (A2 & M2 & R2).
  repeat split; congruence.
Qed.

(** In verbose mode an [ldr] or [add] that is the very first instruction
    decoded makes the scan panic before its line is printed: the markup
    reads [insns[i-1]] at [i = 0].  All the scan leaves behind is what the
    function header of that instruction did. *)
Theorem verbose_first_instruction_panics (funcStarts : option (list Z))
    (insn : Instruction) (rest : list Instruction) :
  Verbose fl = true ->
  Mnemonic insn = "ldr" \/ Mnemonic insn = "add" ->
  markupAdrp Filter m fl (insn :: rest) 0 insn = ([], Panic)
  /\ disLoop Filter m fl funcStarts (insn :: rest)
     = (trace (functionHeader Filter m fl funcStarts insn), Panic).
Proof.
  intros Hv Hmn.
  assert (Hm : markupAdrp Filter m fl (insn :: rest) 0 insn = ([], Panic)).
  { unfold markupAdrp. rewrite Hv.
    destruct Hmn as [-> | ->]; reflexivity. }
  split; [exact Hm|].
  unfold disLoop. cbn [rangeLoop]. unfold loopBody, annotate. rewrite Hm.
  destruct (functionHeader Filter m fl funcStarts insn) as [t [[]|]];
    cbn; [now rewrite app_nil_r|reflexivity].
Qed.

(** The adrp markup looks at the immediately preceding instruction only:
    after anything but an [adrp] it makes no lookup and leaves the
    instruction as decoded, verbose or not. *)
Theorem adrp_markup_needs_adrp (insns : list Instruction) (i : Z)
    (prev insn : Instruction) :
  index insns (i - 1) = Ret prev ->
  Mnemonic prev <> "adrp" ->
  markupAdrp Filter m fl insns i insn = ([], Ret insn).
Proof.
  intros Hprev Hne. unfold markupAdrp. rewrite Hprev.
  apply String.eqb_neq in Hne.
  destruct (Verbose fl && _); [|reflexivity].
  rewrite bind_lift_Ret, bind_ret, Hne. reflexivity.
Qed.

(** An [ldr] after an [adrp] is looked up even when its base register is
    not the register of the [adrp]: the address is then the page alone,
    and a symbol at the page becomes the comment of the [ldr]. *)
Theorem ldr_other_base_looks_up_page (insns : list Instruction) (i : Z)
    (adrp ldr : Instruction) (p0 p1 o0 o1 : Arm64Operand) :
  Verbose fl = true ->
  index insns (i - 1) = Ret adrp ->
  Mnemonic adrp = "adrp" -> Operands (Arm64 adrp) = [p0; p1] ->
  Mnemonic ldr = "ldr" -> Operands (Arm64 ldr) = [o0; o1] ->
  Reg p0 <> Base (Mem o1) ->
  markupAdrp Filter m fl insns i ldr
  = labelComment Filter m fl (Imm p1) ldr
  /\ (exists t, trace (markupAdrp Filter m fl insns i ldr)
                = CallFindAddressSymbol (uint64 (Imm p1)) :: t)
  /\ (forall sym, FindAddressSymbol m (uint64 (Imm p1)) = Some sym ->
        demangleFlag fl = false ->
        outcome (markupAdrp Filter m fl insns i ldr)
        = Ret (setOpStr ldr (OpStr ldr ++ " // " ++ sym))).
Proof.
  intros Hv Hprev Hadrp Hp Hldr Ho Hne.
  assert (Heq : markupAdrp Filter m fl insns i ldr
                = labelComment Filter m fl (Imm p1) ldr).
  { rewrite (markupAdrp_pair Filter m fl insns i adrp ldr Hv
               (or_introl Hldr) Hprev Hadrp);
      [|rewrite Ho; reflexivity|rewrite Hp; reflexivity].
    rewrite (adrpTarget_ldr adrp ldr p0 p1 o0 o1 Hp Hldr Ho).
    apply Z.eqb_neq in Hne. rewrite Hne. now rewrite bind_lift_Ret. }
  split; [exact Heq|]. rewrite Heq, labelComment_eq. split.
  - destruct (FindAddressSymbol m (uint64 (Imm p1))); eexists; reflexivity.
  - intros sym Hsym Hoff. rewrite Hsym, (demangled_off Filter fl sym Hoff).
    reflexivity.
Qed.

(** One instruction of a quiet scan (no verbose flag, no demangling, no
    function start at its address): no panic, exactly one line, with the
    decoder's operand text or, for a branch to a known symbol, its name. *)
Lemma quiet_body (funcStarts : option (list Z)) (insns : list Instruction)
    (i : Z) (insn : Instruction) :
  Verbose fl = false ->
  demangleFlag fl = false ->
  match funcStarts with
  | None => True
  | Some starts =>
      len starts <= MaxInt /\ ~ In (uint64 (Address insn)) starts
  end ->
  exists t ops,
    loopBody Filter m fl funcStarts insns i insn = (t, Ret tt)
    /\ printed t = [insnLine (setOpStr insn ops)]
    /\ (ops = OpStr insn
        \/ HasPrefix (Mnemonic insn) "b" = true
           /\ exists o0 rest, Operands (Arm64 insn) = o0 :: rest
                /\ FindAddressSymbol m (uint64 (Imm o0)) = Some ops).
Proof.
  intros Hv Hd Hstarts.
  assert (Hh : functionHeader Filter m fl funcStarts insn = ([], Ret tt)).
  { unfold functionHeader. destruct funcStarts as [starts|]; [|reflexivity].
    destruct Hstarts as [Hlen Hnot].
    now rewrite (isFunctionStart_no_entry starts _ Hlen Hnot). }
  assert (Heta : forall x : Instruction, setOpStr x (OpStr x) = x)
    by (now intros []).
  unfold loopBody, annotate. rewrite Hh, (markupAdrp_quiet Filter m fl insns i insn Hv).
  rewrite !bind_traced. unfold markupBranch.
  destruct (HasPrefix (Mnemonic insn) "b") eqn:Hb;
    [|exists [Printf (insnLine insn)], (OpStr insn);
      rewrite Heta; repeat split; now left].
  destruct (HasPrefix (OpStr insn) "#0x");
    [|exists [Printf (insnLine insn)], (OpStr insn);
      rewrite Heta; repeat split; now left].
  destruct (Operands (Arm64 insn)) as [|o0 rest] eqn:Hops;
    [exists [Printf (insnLine insn)], (OpStr insn);
     rewrite Heta; repeat split; now left|].
  change (0 <? len (o0 :: rest)) with true.
  change (index (o0 :: rest) 0) with (Ret o0).
  cbn [andb]. cbv iota. rewrite bind_lift_Ret.
  unfold callFindAddressSymbol. rewrite bind_traced.
  destruct (FindAddressSymbol m (uint64 (Imm o0))) as [sym|] eqn:Hsym.
  - rewrite (demangled_off Filter fl sym Hd), bind_lift_Ret.
    eexists _, sym. repeat split.
    right. split; [reflexivity|]. now exists o0, rest.
  - eexists _, (OpStr insn). rewrite Heta. repeat split. now left.
Qed.

(** A header needs a table and an entry: without a function-start table,
    or at an address that is no entry of it, nothing is looked up and
    nothing is printed before the line of the instruction. *)
Theorem no_header_off_table (funcStarts : option (list Z))
    (insn : Instruction) :
  match funcStarts with
  | None => True
  | Some starts =>
      len starts <= MaxInt /\ ~ In (uint64 (Address insn)) starts
  end ->
  functionHeader Filter m fl funcStarts insn = ([], Ret tt).
Proof.
  intros Hstarts. unfold functionHeader.
  destruct funcStarts as [starts|]; [|reflexivity].
  destruct Hstarts as [Hlen Hnot].
  now rewrite (isFunctionStart_no_entry starts _ Hlen Hnot).
Qed.

(** Under [-d] a branch to a symbol whose name is empty, ["."] or ["$"]
    makes the annotator panic: [doDemangle] reads past the end of such a
    name. *)
Theorem demangle_flag_panics_on_bare_name (insns : list Instruction) (i : Z)
    (insn : Instruction) (o0 : Arm64Operand) (ops : list Arm64Operand)
    (sym : string) :
  demangleFlag fl = true ->
  HasPrefix (Mnemonic insn) "b" = true ->
  HasPrefix (OpStr insn) "#0x" = true ->
  Operands (Arm64 insn) = o0 :: ops ->
  FindAddressSymbol m (uint64 (Imm o0)) = Some sym ->
  sym = "" \/ sym = "." \/ sym = "$" ->
  annotate Filter m fl insns i insn
  = ([CallFindAddressSymbol (uint64 (Imm o0))], Panic).
Proof.
  intros Hd Hb Hop Hops Hsym Hbare.
  rewrite (annotate_branch Filter m fl insns i insn Hb).
  unfold markupBranch, callFindAddressSymbol. rewrite Hb, Hop, Hops.
  change (0 <? len (o0 :: ops)) with true.
  change (index (o0 :: ops) 0) with (Ret o0).
  cbv iota. rewrite bind_lift_Ret, bind_traced, Hsym.
  unfold demangled. rewrite Hd.
  apply (DemangleProperties.doDemangle_panic_cases Filter) in Hbare.
  rewrite Hbare. reflexivity.
Qed.

Lemma rangeLoop_lines (body : Z -> Instruction -> Run unit)
    (R : Instruction -> string -> Prop) (rest : list Instruction) :
  forall i,
    (forall j insn, In insn rest ->
       exists t line, body j insn = (t, Ret tt)
                      /\ printed t = [line] /\ R insn line) ->
    outcome (rangeLoop body i rest) = Ret tt
    /\ Forall2 R rest (printed (trace (rangeLoop body i rest))).
Proof.
  induction rest as [|insn rest IH]; intros i Hbody.
  - split; [reflexivity|constructor].
  - destruct (Hbody i insn (or_introl eq_refl)) as (t & line & Hb & Hp & HR).
    destruct (IH (i + 1)) as [Ho Hl].
    { intros j x Hx. apply Hbody. now right. }
    cbn [rangeLoop]. rewrite Hb, bind_traced.
    cbn [trace outcome fst snd]. rewrite printed_app, Hp.
    split; [exact Ho|]. now constructor.
Qed.

(** A quiet scan (no verbose flag, no demangling) over instructions none
    of which sits on a function start never panics and prints exactly one
    line per instruction, in order: address and mnemonic as decoded, and
    the decoder's operand text or, for a branch to a known symbol, the
    name of the symbol. *)
Theorem quiet_scan_lines (funcStarts : option (list Z))
    (insns : list Instruction) :
  Verbose fl = false ->
  demangleFlag fl = false ->
  match funcStarts with
  | None => True
  | Some starts =>
      len starts <= MaxInt
      /\ forall insn, In insn insns -> ~ In (uint64 (Address insn)) starts
  end ->
  outcome (disLoop Filter m fl funcStarts insns) = Ret tt
  /\ Forall2
       (fun insn line =>
          exists ops,
            line = insnLine (setOpStr insn ops)
            /\ (ops = OpStr insn
                \/ HasPrefix (Mnemonic insn) "b" = true
                   /\ exists o0 rest, Operands (Arm64 insn) = o0 :: rest
                        /\ FindAddressSymbol m (uint64 (Imm o0)) = Some ops))
       insns (printed (trace (disLoop Filter m fl funcStarts insns))).
Proof.
  intros Hv Hd Hstarts. unfold disLoop. apply rangeLoop_lines.
  intros j insn Hin.
  destruct (quiet_body funcStarts insns j insn Hv Hd) as (t & ops & Hb & Hp & Hops).
  { destruct funcStarts as [starts|]; [|exact I].
    destruct Hstarts as [Hlen Hnot]. split; [exact Hlen|now apply Hnot]. }
  exists t, (insnLine (setOpStr insn ops)).
  split; [exact Hb|]. split; [exact Hp|]. now exists ops.
Qed.

End Annotator.

End ScanProperties.

(** ** More on the command *)

Module CommandProperties.
Import Disass MachO Gapstone AnnotatorFacts ScanFacts.

Lemma rangeLoop_ext (body body' : Z -> Instruction -> Run unit)
    (rest : list Instruction) :
  (forall i insn, body i insn = body' i insn) ->
  forall i, rangeLoop body i rest = rangeLoop body' i rest.
Proof.
  intros Hext. induction rest as [|insn rest IH]; intros i; [reflexivity|].
  cbn [rangeLoop]. rewrite Hext.
  destruct (body' i insn) as [t [[]|]]; [|reflexivity].
  rewrite !bind_traced. now rewrite IH.
Qed.

Section Command.

Variable Filter : string -> string.
Variable Open : string -> result File.
Variable engine : Engine.
Variable maxAlloc : Z.

(** The scan reads two flags only: verbose and demangle. *)
Lemma disLoop_flags (m : File) (fl fl' : Flags)
    (funcStarts : option (list Z)) (insns : list Instruction) :
  Verbose fl' = Verbose fl ->
  demangleFlag fl' = demangleFlag fl ->
  disLoop Filter m fl' funcStarts insns = disLoop Filter m fl funcStarts insns.
Proof.
  intros Hv Hd. unfold disLoop. apply rangeLoop_ext. intros i insn.
  unfold loopBody, annotate, functionHeader, markupAdrp, markupBranch,
    labelComment, demangled.
  rewrite Hv, Hd. reflexivity.
Qed.

Lemma disassembleAt_flags (m : File) (fl fl' : Flags) (startAddr : Z) :
  Verbose fl' = Verbose fl ->
  demangleFlag fl' = demangleFlag fl ->
  instrs fl' = instrs fl ->
  disassembleAt Filter engine maxAlloc m fl' startAddr
  = disassembleAt Filter engine maxAlloc m fl startAddr.
Proof.
  intros Hv Hd Hi. unfold disassembleAt. rewrite Hi.
  match goal with
  | |- context [mbind (lift ?r) _] => destruct r as [sz|]
  end; [|reflexivity].
  rewrite !bind_lift_Ret.
  destruct (make maxAlloc sz) as [data|]; [|reflexivity].
  rewrite !bind_lift_Ret.
  destruct (find (inText startAddr) (Sections m)) as [sec|]; [|reflexivity].
  match goal with
  | |- context [mbind (lift ?r) _] => destruct r as [data'|]
  end; [|reflexivity].
  rewrite !bind_lift_Ret.
  destruct (ReadAt sec data' _) as [bytes|e1]; [|reflexivity].
  destruct (New engine) as [[]|e2]; [|reflexivity].
  destruct (Disasm engine bytes startAddr) as [insns|e3]; [|reflexivity].
  now rewrite (disLoop_flags m fl fl').
Qed.

(** With a symbol name the [--vaddr] flag is never read: two invocations
    that differ in it alone do the same. *)
Theorem symbol_overrides_vaddr (fl fl' : Flags) (args : list string) :
  symbolName fl <> "" ->
  symbolName fl' = symbolName fl ->
  Verbose fl' = Verbose fl ->
  demangleFlag fl' = demangleFlag fl ->
  instrs fl' = instrs fl ->
  RunE Filter Open engine maxAlloc fl' args = RunE Filter Open engine maxAlloc fl args.
Proof.
  intros Hne Hs Hv Hd Hi. unfold RunE. rewrite Hs.
  assert (Hlen : (0 <? Z.of_nat (String.length (symbolName fl))) = true).
  { destruct (symbolName fl); [congruence|].
    apply Z.ltb_lt. simpl String.length. lia. }
  rewrite Hlen.
  destruct (index args 0) as [arg0|]; [|reflexivity].
  rewrite !bind_lift_Ret.
  destruct (Open arg0) as [m|e]; [|reflexivity].
  destruct (FindSymbolAddress m (symbolName fl)) as [startAddr|e];
    [|reflexivity].
  now apply disassembleAt_flags.
Qed.

(** Every error the command returns is returned before the scan: when
    [RunE] returns an error, nothing was printed and no symbol or string
    was looked up. *)
Theorem error_before_output (fl : Flags) (args : list string) (e : error) :
  outcome (RunE Filter Open engine maxAlloc fl args) = Ret (Some e) ->
  trace (RunE Filter Open engine maxAlloc fl args) = [].
Proof.
  unfold RunE, disassembleAt.
  destruct (index args 0) as [arg0|]; [|discriminate].
  rewrite bind_lift_Ret.
  destruct (Open arg0) as [m|e0]; [|reflexivity].
  assert (Hat : forall startAddr,
            outcome (disassembleAt Filter engine maxAlloc m fl startAddr)
            = Ret (Some e) ->
            trace (disassembleAt Filter engine maxAlloc m fl startAddr) = []).
  { intros startAddr. unfold disassembleAt.
    match goal with
    | |- context [mbind (lift ?r) _] => destruct r as [sz|]
    end; [|discriminate].
    rewrite bind_lift_Ret.
    destruct (make maxAlloc sz) as [data|]; [|discriminate].
    rewrite bind_lift_Ret.
    destruct (find (inText startAddr) (Sections m)) as [sec|]; [|reflexivity].
    match goal with
    | |- context [mbind (lift ?r) _] => destruct r as [data'|]
    end; [|discriminate].
    rewrite bind_lift_Ret.
    destruct (ReadAt sec data' _) as [bytes|e1]; [|reflexivity].
    destruct (New engine) as [[]|e2]; [|reflexivity].
    destruct (Disasm engine bytes startAddr) as [insns|e3]; [|reflexivity].
    destruct (disLoop Filter m fl (FunctionStarts m) insns) as [t [[]|]];
      cbn; discriminate. }
  destruct (0 <? Z.of_nat (String.length (symbolName fl))).
  - destruct (FindSymbolAddress m (symbolName fl)); [apply Hat|reflexivity].
  - destruct (vaddr fl =? 0); [reflexivity|apply Hat].
Qed.

End Command.

End CommandProperties.


(** ** The bounded queue *)

Module QueueProperties.

Lemma evict_keeps_newest (bound : Z) (items : list string) :
  0 < bound ->
  Download.evict bound items
  = Ret (skipn (Z.to_nat (len items - (bound - 1))) items).
Proof.
  intros Hb. induction items as [|x xs IH].
  - cbn [Download.evict]. change (len (@nil string)) with 0.
    destruct (Z.geb_spec 0 bound); [lia|].
    now rewrite skipn_nil.
  - cbn [Download.evict].
    assert (Hlen : len (x :: xs) = len xs + 1)
      by (unfold len; simpl List.length; lia).
    rewrite Hlen.
    destruct (Z.geb_spec (len xs + 1) bound) as [Hge|Hlt].
    + rewrite IH.
      replace (Z.to_nat (len xs + 1 - (bound - 1)))
        with (S (Z.to_nat (len xs - (bound - 1)))) by lia.
      reflexivity.
    + replace (Z.to_nat (len xs + 1 - (bound - 1))) with 0%nat by lia.
      reflexivity.
Qed.

(** [Push] on a queue with a positive bound keeps the newest [len - 1]
    items, drops the older ones from the front and puts the item at the
    back; the queue never grows beyond its bound. *)
Theorem push_keeps_newest (q : Download.Queue) (item : string) :
  0 < Download.len q ->
  exists q',
    Download.Push q item = Ret q'
    /\ Download.l q'
       = (skipn (Z.to_nat (Download.Len q - (Download.len q - 1)))
            (Download.l q) ++ [item])%list
    /\ Download.len q' = Download.len q
    /\ Download.Len q' = Z.min (Download.Len q + 1) (Download.len q).
Proof.
  intros Hb. unfold Download.Push, Download.Len.
  rewrite (evict_keeps_newest _ _ Hb). cbn [mbind Res_Monad mret].
  eexists. split; [reflexivity|]. cbn [Download.l Download.len].
  split; [reflexivity|]. split; [reflexivity|].
  unfold len. rewrite length_app, length_skipn. simpl List.length. lia.
Qed.

(** What was pushed last is what [Peek] shows and [Pop] returns; when the
    queue had room, [Pop] gives the queue back as it was before the
    [Push]. *)
Theorem push_then_pop (q : Download.Queue) (item : string) :
  0 < Download.len q ->
  exists q',
    Download.Push q item = Ret q'
    /\ Download.Peek q' = item
    /\ fst (Download.Pop q') = item
    /\ (Download.Len q < Download.len q -> snd (Download.Pop q') = q).
Proof.
  intros Hb. unfold Download.Push.
  rewrite (evict_keeps_newest _ _ Hb). cbn [mbind Res_Monad mret].
  eexists. split; [reflexivity|].
  set (kept := skipn _ (Download.l q)).
  assert (Hne : Download.IsEmpty
                  {| Download.l := (kept ++ [item])%list;
                     Download.len := Download.len q |} = false).
  { unfold Download.IsEmpty, Download.Len, len. cbn [Download.l].
    rewrite length_app. simpl List.length. apply Z.eqb_neq. lia. }
  unfold Download.Peek, Download.Pop. rewrite Hne. cbn [Download.l fst snd].
  rewrite last_last, removelast_last. repeat split.
  intros Hroom. cbn [Download.len]. unfold kept, Download.Len in *.
  replace (Z.to_nat (len (Download.l q) - (Download.len q - 1)))
    with 0%nat by lia.
  now destruct q.
Qed.

(** A queue made with a bound of zero or less cannot take anything:
    [Push] empties it and then removes the front of an empty list. *)
Theorem push_without_bound_panics (q : Download.Queue) (item : string) :
  Download.len q <= 0 ->
  Download.Push q item = Panic.
Proof.
  intros Hb. unfold Download.Push.
  assert (He : forall items, Download.evict (Download.len q) items = Panic).
  { induction items as [|x xs IH]; cbn [Download.evict].
    - change (len (@nil string)) with 0.
      destruct (Z.geb_spec 0 (Download.len q)); [reflexivity|lia].
    - destruct (Z.geb_spec (len (x :: xs)) (Download.len q)) as [_|Hlt];
        [exact IH|].
      unfold len in Hlt. lia. }
  now rewrite He.
Qed.

(** [Pop] takes the item at the back: a queue that is not empty is what
    [Pop] leaves followed by what it returns; on an empty queue [Pop]
    returns the empty string and changes nothing. *)
Theorem pop_takes_back (q : Download.Queue) :
  (Download.l q = [] -> Download.Pop q = ("", q) /\ Download.Peek q = "")
  /\ (Download.l q <> [] ->
      Download.l q
      = (Download.l (snd (Download.Pop q)) ++ [fst (Download.Pop q)])%list
      /\ Download.Peek q = fst (Download.Pop q)
      /\ Download.Len (snd (Download.Pop q)) = Download.Len q - 1).
Proof.
  unfold Download.Pop, Download.Peek, Download.IsEmpty, Download.Len.
  split.
  - intros ->. split; reflexivity.
  - intros Hne.
    assert (Hlen : (len (Download.l q) =? 0) = false).
    { apply Z.eqb_neq. unfold len.
      destruct (Download.l q); [congruence|simpl; lia]. }
    rewrite Hlen. cbn [fst snd Download.l].
    split; [now apply app_removelast_last|]. split; [reflexivity|].
    unfold len.
    rewrite (app_removelast_last "" Hne) at 2.
    rewrite length_app. simpl List.length. lia.
Qed.

End QueueProperties.

(** ** The further properties on the sample inputs *)

Module MoreExamples.
Import Disass MachO Gapstone Sample.
Import FunctionStartFacts AnnotatorFacts ScanFacts.
Import LookupProperties DemangleProperties HexProperties ScanProperties
  CommandProperties QueueProperties.

Lemma Search_first_true_witness :
  exists r,
    Sort.Search 3 (fun i => s <- index [100; 140; 200] i ;; mret (140 <=? s))
    = Ret r /\ 0 <= r <= 3 /\
    ((forall h k, 0 <= h -> h <= k -> k < 3 ->
        (140 <=? nth (Z.to_nat h) [100; 140; 200] 0) = true ->
        (140 <=? nth (Z.to_nat k) [100; 140; 200] 0) = true) ->
     (forall k, 0 <= k < r ->
        (140 <=? nth (Z.to_nat k) [100; 140; 200] 0) = false) /\
     (forall k, r <= k < 3 ->
        (140 <=? nth (Z.to_nat k) [100; 140; 200] 0) = true)).
Proof.
  apply (Search_first_true 3
           (fun i => s <- index [100; 140; 200] i ;; mret (140 <=? s))
           (fun h => 140 <=? nth (Z.to_nat h) [100; 140; 200] 0)).
  - split; [lia|vm_compute; discriminate].
  - apply (closure_total [100; 140; 200] 140).
Defined.

Lemma only_entries_are_starts_witness :
  isFunctionStart [100; 140; 200] 150 = Ret 0.
Proof.
  apply (proj1 (only_entries_are_starts [100; 140; 200] 150
                  ltac:(vm_compute; discriminate))).
  intros [H|[H|[H|[]]]]; discriminate.
Defined.

Lemma entry_size_is_distance_witness :
  isFunctionStart [100; 140; 200] 100 = Ret (140 - 100) /\ 0 < 140 - 100.
Proof.
  apply (entry_size_is_distance [100; 140; 200] 0 100 140).
  - vm_compute; discriminate.
  - repeat constructor.
  - repeat constructor; lia.
  - reflexivity.
  - reflexivity.
Defined.

Lemma last_entry_has_no_size_witness :
  isFunctionStart [100; 140; 200] (last [100; 140; 200] 0) = Panic.
Proof.
  apply (last_entry_has_no_size [100; 140; 200]).
  - discriminate.
  - vm_compute; discriminate.
  - repeat constructor.
Defined.

Lemma doDemangle_panics_iff_witness :
  doDemangle noFilter "$" = Panic.
Proof.
  apply (proj2 (doDemangle_panics_iff noFilter "$")).
  right; right; reflexivity.
Defined.

Lemma doDemangle_unmangled_witness :
  doDemangle noFilter "_main" = Ret "_main".
Proof.
  apply (doDemangle_unmangled noFilter "_main");
    [reflexivity|discriminate..].
Defined.

Lemma hex2int_saturates_witness :
  hex2int ("#0x" ++ fmtHex (2 ^ 64 + 1)) = 2 ^ 64 - 1.
Proof. apply (hex2int_saturates (2 ^ 64 + 1)). lia. Defined.

Lemma hex2int_of_printed_witness :
  hex2int ("#0x" ++ fmtHex 0xcb8) = 0xcb8.
Proof. apply (hex2int_of_printed 0xcb8). lia. Defined.

Lemma annotate_only_operand_text_witness :
  Address (setOpStr bl_known "_helper") = Address bl_known
  /\ Mnemonic (setOpStr bl_known "_helper") = Mnemonic bl_known
  /\ Arm64 (setOpStr bl_known "_helper") = Arm64 bl_known.
Proof.
  apply (proj2 (annotate_only_operand_text noFilter withSymbols
                  (flags false false) [bl_known] 0 bl_known)).
  reflexivity.
Defined.

Lemma verbose_first_instruction_panics_witness :
  markupAdrp noFilter withSymbols (flags true false) [ldr_x8] 0 ldr_x8
  = ([], Panic)
  /\ disLoop noFilter withSymbols (flags true false) None [ldr_x8]
     = (trace (functionHeader noFilter withSymbols (flags true false)
                 None ldr_x8), Panic).
Proof.
  apply (verbose_first_instruction_panics noFilter withSymbols
           (flags true false) None ldr_x8 []);
    [reflexivity | left; reflexivity].
Defined.

Lemma adrp_markup_needs_adrp_witness :
  markupAdrp noFilter withSymbols (flags true false)
    [bl_known; ldr_x8] 1 ldr_x8 = ([], Ret ldr_x8).
Proof.
  apply (adrp_markup_needs_adrp noFilter withSymbols (flags true false)
           [bl_known; ldr_x8] 1 bl_known ldr_x8);
    [reflexivity | discriminate].
Defined.

Lemma ldr_other_base_looks_up_page_witness :
  outcome (markupAdrp noFilter withPageSymbol (flags true false)
             [adrp_x8; ldr_x0_x9] 1 ldr_x0_x9)
  = Ret (setOpStr ldr_x0_x9 "x0, [x9, #0x8] // _page").
Proof.
  apply (proj2 (proj2
           (ldr_other_base_looks_up_page noFilter withPageSymbol
              (flags true false) [adrp_x8; ldr_x0_x9] 1 adrp_x8 ldr_x0_x9
              (regOp x8) (immOp 0x100008000) (regOp x0) (memOp x9 8)
              eq_refl eq_refl eq_refl eq_refl eq_refl eq_refl
              ltac:(discriminate))));
    reflexivity.
Defined.

Lemma no_header_off_table_witness :
  functionHeader noFilter withSymbols (flags false false)
    (Some [100; 140; 200]) (ret_at 150) = ([], Ret tt).
Proof.
  apply (no_header_off_table noFilter withSymbols (flags false false)
           (Some [100; 140; 200]) (ret_at 150)).
  split; [vm_compute; discriminate|].
  intros [H|[H|[H|[]]]]; vm_compute in H; discriminate.
Defined.

Lemma demangle_flag_panics_on_bare_name_witness :
  annotate noFilter (image None [(0x100005000, "$")] [] [])
    (flags false true) [bl_known] 0 bl_known
  = ([CallFindAddressSymbol (uint64 0x100005000)], Panic).
Proof.
  apply (demangle_flag_panics_on_bare_name noFilter
           (image None [(0x100005000, "$")] [] []) (flags false true)
           [bl_known] 0 bl_known (immOp 0x100005000) [] "$");
    try reflexivity.
  right; right; reflexivity.
Defined.

Lemma quiet_scan_lines_witness :
  outcome (disLoop noFilter withSymbols (flags false false)
             (Some [100; 140; 200]) [adrp_x8; ldr_x8; bl_known]) = Ret tt
  /\ Forall2
       (fun insn line =>
          exists ops,
            line = insnLine (setOpStr insn ops)
            /\ (ops = OpStr insn
                \/ HasPrefix (Mnemonic insn) "b" = true
                   /\ exists o0 rest, Operands (Arm64 insn) = o0 :: rest
                        /\ FindAddressSymbol withSymbols (uint64 (Imm o0))
                           = Some ops))
       [adrp_x8; ldr_x8; bl_known]
       (printed (trace (disLoop noFilter withSymbols (flags false false)
                          (Some [100; 140; 200])
                          [adrp_x8; ldr_x8; bl_known]))).
Proof.
  apply (quiet_scan_lines noFilter withSymbols (flags false false)
           (Some [100; 140; 200]) [adrp_x8; ldr_x8; bl_known]);
    [reflexivity | reflexivity |].
  split; [vm_compute; discriminate|].
  intros insn [<-|[<-|[<-|[]]]] [H|[H|[H|[]]]]; vm_compute in H; discriminate.
Defined.

Lemma disLoop_reaches_witness :
  exists rest,
    printed (trace (disLoop noFilter withSymbols (flags false false) None
                      ([adrp_x8] ++ ldr_x8 :: [bl_known]))) =
    (printed [Printf (insnLine adrp_x8)]
     ++ printed (trace (loopBody noFilter withSymbols (flags false false) None
                          ([adrp_x8] ++ ldr_x8 :: [bl_known])
                          (len [adrp_x8]) ldr_x8))
     ++ rest)%list.
Proof.
  apply (disLoop_reaches noFilter withSymbols (flags false false) None
           [adrp_x8] [bl_known] ldr_x8 [Printf (insnLine adrp_x8)]).
  reflexivity.
Defined.

Lemma symbol_overrides_vaddr_witness :
  RunE noFilter openImage engine maxAlloc (flagsFor "_main" 0x100004000) ["kernel"]
  = RunE noFilter openImage engine maxAlloc (flagsFor "_main" 0) ["kernel"].
Proof.
  apply (symbol_overrides_vaddr noFilter openImage engine maxAlloc
           (flagsFor "_main" 0) (flagsFor "_main" 0x100004000) ["kernel"]);
    [discriminate | reflexivity..].
Defined.

Lemma error_before_output_witness :
  trace (RunE noFilter openImage engine maxAlloc (flagsAt 0) ["kernel"]) = [].
Proof.
  apply (error_before_output noFilter openImage engine maxAlloc (flagsAt 0)
           ["kernel"] "you must supply a vaddr to disassemble at").
  reflexivity.
Defined.

Lemma push_keeps_newest_witness :
  exists q',
    Download.Push fullQueue "12.2" = Ret q'
    /\ Download.l q'
       = (skipn (Z.to_nat (Download.Len fullQueue
                           - (Download.len fullQueue - 1)))
            (Download.l fullQueue) ++ ["12.2"])%list
    /\ Download.len q' = Download.len fullQueue
    /\ Download.Len q'
       = Z.min (Download.Len fullQueue + 1) (Download.len fullQueue).
Proof. apply (push_keeps_newest fullQueue "12.2"). reflexivity. Defined.

Lemma push_then_pop_witness :
  exists q',
    Download.Push (Download.NewQueue 100) "12.2" = Ret q'
    /\ Download.Peek q' = "12.2"
    /\ fst (Download.Pop q') = "12.2"
    /\ (Download.Len (Download.NewQueue 100)
        < Download.len (Download.NewQueue 100) ->
        snd (Download.Pop q') = Download.NewQueue 100).
Proof.
  apply (push_then_pop (Download.NewQueue 100) "12.2"). reflexivity.
Defined.

Lemma push_without_bound_panics_witness :
  Download.Push (Download.NewQueue 0) "12.2" = Panic.
Proof.
  apply (push_without_bound_panics (Download.NewQueue 0) "12.2").
  discriminate.
Defined.

Lemma pop_takes_back_witness :
  Download.l fullQueue
  = (Download.l (snd (Download.Pop fullQueue))
     ++ [fst (Download.Pop fullQueue)])%list
  /\ Download.Peek fullQueue = fst (Download.Pop fullQueue)
  /\ Download.Len (snd (Download.Pop fullQueue))
     = Download.Len fullQueue - 1.
Proof.
  apply (proj2 (pop_takes_back fullQueue)). discriminate.
Defined.

End MoreExamples.

(** ** The annotations under every setting of the flags *)

Module FlagCases.
Import Disass MachO Gapstone.
Import FunctionStartFacts AnnotatorFacts ScanFacts DemangleProperties.

Section Flags.

Variable Filter : string -> string.
Variable m : File.
Variable fl : Flags.

(** Under [-d] the name shown is what [doDemangle] returns, and it returns
    for every name but [""], ["."] and ["$"]. *)
Lemma demangled_on (sym : string) :
  demangleFlag fl = true ->
  sym <> "" -> sym <> "." -> sym <> "$" ->
  exists s, doDemangle Filter sym = Ret s /\ demangled Filter fl sym = Ret s.
Proof.
  intros Hd H1 H2 H3. unfold demangled. rewrite Hd.
  destruct (doDemangle Filter sym) as [s|] eqn:Hs.
  - exists s. split; reflexivity.
  - exfalso. apply doDemangle_panic_cases in Hs. tauto.
Qed.

(** C1, as amended: for an [adrp x8, #PAGE] immediately followed by
    [ldr x8, [x8, #0xcb8]], where PAGE + 0xcb8 is the value of a known
    symbol: in verbose mode the annotator appends [" // "] and the name of
    the symbol to the operand text of the [ldr] - the name as it is without
    the demangle flag, the name [doDemangle] returns for it with the flag
    and a name other than [""], ["."] and ["$"] - and the original operand
    text stays as a prefix; without verbose mode the operand text of the
    [ldr] is left as decoded. *)
Theorem adrp_ldr_comment_by_flags (insns : list Instruction) (i : Z)
    (adrp ldr : Instruction) (p0 p1 o0 o1 : Arm64Operand)
    (x8 PAGE : Z) (sym : string) :
  index insns (i - 1) = Ret adrp ->
  index insns i = Ret ldr ->
  Mnemonic adrp = "adrp" ->
  Operands (Arm64 adrp) = [p0; p1] -> Reg p0 = x8 -> Imm p1 = PAGE ->
  Mnemonic ldr = "ldr" ->
  Operands (Arm64 ldr) = [o0; o1] ->
  Base (Mem o1) = x8 -> Disp (Mem o1) = 0xcb8 ->
  FindAddressSymbol m (uint64 (PAGE + 0xcb8)) = Some sym ->
  (Verbose fl = true -> demangleFlag fl = false ->
   annotate Filter m fl insns i ldr =
     ([CallFindAddressSymbol (uint64 (PAGE + 0xcb8))],
      Ret (setOpStr ldr (OpStr ldr ++ " // " ++ sym)))
   /\ prefix (OpStr ldr) (OpStr ldr ++ " // " ++ sym) = true)
  /\ (Verbose fl = true -> demangleFlag fl = true ->
      sym <> "" -> sym <> "." -> sym <> "$" ->
      exists s,
        doDemangle Filter sym = Ret s
        /\ annotate Filter m fl insns i ldr =
             ([CallFindAddressSymbol (uint64 (PAGE + 0xcb8))],
              Ret (setOpStr ldr (OpStr ldr ++ " // " ++ s)))
        /\ prefix (OpStr ldr) (OpStr ldr ++ " // " ++ s) = true)
  /\ (Verbose fl = false ->
      annotate Filter m fl insns i ldr = ([], Ret ldr)).
Proof.
  intros Hprev Hcur Hadrp Hp Hreg Himm Hldr Ho Hbase Hdisp Hsym.
  split; [|split].
  - intros Hv Hd.
    apply (adrp_ldr_symbol_comment Filter m fl insns i adrp ldr p0 p1 o0 o1
             x8 PAGE sym sym); auto.
    now apply demangled_off.
  - intros Hv Hd H1 H2 H3.
    destruct (demangled_on sym Hd H1 H2 H3) as (s & Hs & Hdem).
    exists s. split; [exact Hs|].
    apply (adrp_ldr_symbol_comment Filter m fl insns i adrp ldr p0 p1 o0 o1
             x8 PAGE sym s); auto.
  - intros Hv.
    apply (proj1 (quiet_keeps_operand_text Filter m fl insns i ldr) Hv).
    now left.
Qed.

(** C2, as amended: a branch-class instruction (mnemonic beginning with
    [b]) whose operand is a literal address ([#0x...], decoded as the
    immediate of its first operand) gets its operand text replaced, not
    annotated, when a symbol is known at that address: by the symbol name
    without the demangle flag, and by the name [doDemangle] returns for it
    with the flag and a name other than [""], ["."] and ["$"]; when no
    symbol is known there the operand text stays as it is. *)
Theorem branch_operand_by_flags (insns : list Instruction) (i : Z)
    (insn : Instruction) (o0 : Arm64Operand) (ops : list Arm64Operand) :
  HasPrefix (Mnemonic insn) "b" = true ->
  HasPrefix (OpStr insn) "#0x" = true ->
  Operands (Arm64 insn) = o0 :: ops ->
  match FindAddressSymbol m (uint64 (Imm o0)) with
  | Some sym =>
      (demangleFlag fl = false ->
       annotate Filter m fl insns i insn =
         ([CallFindAddressSymbol (uint64 (Imm o0))],
          Ret (setOpStr insn sym))
       /\ OpStr (setOpStr insn sym) = sym)
      /\ (demangleFlag fl = true ->
          sym <> "" -> sym <> "." -> sym <> "$" ->
          exists s,
            doDemangle Filter sym = Ret s
            /\ annotate Filter m fl insns i insn =
                 ([CallFindAddressSymbol (uint64 (Imm o0))],
                  Ret (setOpStr insn s))
            /\ OpStr (setOpStr insn s) = s)
  | None =>
      annotate Filter m fl insns i insn =
        ([CallFindAddressSymbol (uint64 (Imm o0))], Ret insn)
  end.
Proof.
  intros Hb Hop Hops.
  pose proof (branch_operand_replaced Filter m fl insns i insn o0 ops
                Hb Hop Hops) as H.
  destruct (FindAddressSymbol m (uint64 (Imm o0))) as [sym|]; [|exact H].
  destruct H as [H _]. split.
  - intros Hd. apply H. now apply demangled_off.
  - intros Hd H1 H2 H3.
    destruct (demangled_on sym Hd H1 H2 H3) as (s & Hs & Hdem).
    exists s. split; [exact Hs|]. now apply H.
Qed.

(** C5, as amended: when the address of an adrp pair is resolved, the
    symbol index is asked first and the C-string reader only when the
    symbol lookup fails; when a symbol matches, the comment is the symbol
    name without the demangle flag and the name [doDemangle] returns for it
    with the flag and a name other than [""], ["."] and ["$"]; otherwise
    the comment is the C string when one is readable, and there is no
    comment when both lookups fail. *)
Theorem label_lookup_by_flags (insns : list Instruction) (i : Z)
    (prev insn : Instruction) (a : Z) :
  Verbose fl = true ->
  Mnemonic insn = "ldr" \/ Mnemonic insn = "add" ->
  index insns (i - 1) = Ret prev ->
  Mnemonic prev = "adrp" ->
  1 < len (Operands (Arm64 insn)) ->
  1 < len (Operands (Arm64 prev)) ->
  adrpTarget prev insn = Ret a ->
  match FindAddressSymbol m (uint64 a) with
  | Some sym =>
      (demangleFlag fl = false ->
       markupAdrp Filter m fl insns i insn =
         ([CallFindAddressSymbol (uint64 a)],
          Ret (setOpStr insn (OpStr insn ++ " // " ++ sym))))
      /\ (demangleFlag fl = true ->
          sym <> "" -> sym <> "." -> sym <> "$" ->
          exists s,
            doDemangle Filter sym = Ret s
            /\ markupAdrp Filter m fl insns i insn =
                 ([CallFindAddressSymbol (uint64 a)],
                  Ret (setOpStr insn (OpStr insn ++ " // " ++ s))))
  | None =>
      match GetCString m (uint64 a) with
      | Some cstr =>
          markupAdrp Filter m fl insns i insn =
            ([CallFindAddressSymbol (uint64 a); CallGetCString (uint64 a)],
             Ret (setOpStr insn (OpStr insn ++ " // " ++ cstr)))
      | None =>
          markupAdrp Filter m fl insns i insn =
            ([CallFindAddressSymbol (uint64 a); CallGetCString (uint64 a)],
             Ret insn)
      end
  end.
Proof.
  intros Hv Hmn Hprev Hadrp Hops Hpops Ha.
  rewrite (label_symbol_then_cstring Filter m fl insns i prev insn a
             Hv Hmn Hprev Hadrp Hops Hpops Ha).
  destruct (FindAddressSymbol m (uint64 a)) as [sym|].
  - split.
    + intros Hd. now rewrite (demangled_off Filter fl sym Hd).
    + intros Hd H1 H2 H3.
      destruct (demangled_on sym Hd H1 H2 H3) as (s & Hs & Hdem).
      exists s. split; [exact Hs|]. now rewrite Hdem.
  - destruct (GetCString m (uint64 a)); reflexivity.
Qed.

(** What the loop body prints once the header has returned: what the
    header printed, then the line of the instruction if its annotation
    returns. *)
Lemma loopBody_after_header (funcStarts : option (list Z))
    (insns : list Instruction) (i : Z) (insn : Instruction)
    (th : list Event) :
  functionHeader Filter m fl funcStarts insn = (th, Ret tt) ->
  printed (trace (loopBody Filter m fl funcStarts insns i insn))
  = (printed th
     ++ match outcome (annotate Filter m fl insns i insn) with
        | Ret insn' => [insnLine insn']
        | Panic => []
        end)%list.
Proof.
  intros Hh. unfold loopBody. rewrite Hh, bind_traced.
  pose proof (annotate_silent Filter m fl insns i insn) as Hs.
  unfold silent in Hs.
  destruct (annotate Filter m fl insns i insn) as [ta [insn'|]];
    cbn [trace outcome fst snd] in *.
  - rewrite bind_traced. cbn [trace fst printf].
    now rewrite !printed_app, Hs.
  - cbn [mbind Run_Monad trace fst]. now rewrite printed_app, Hs.
Qed.

(** C7, as amended: when the address of an instruction is an entry, other
    than the last one, of the strictly ascending function-start table: if
    a symbol is known at that address, the label header - the symbol name
    without the demangle flag, the name [doDemangle] returns for it with
    the flag and a name other than [""], ["."] and ["$"], followed by a
    colon - is the first thing printed for the instruction, and its line
    follows whenever its annotation returns; if no symbol is known at the
    address, no header is printed for it. *)
Theorem function_header_first (starts : list Z) (k : nat) (next : Z)
    (insns : list Instruction) (i : Z) (insn : Instruction) :
  len starts <= MaxInt ->
  StronglySorted Z.lt starts ->
  0 <= Address insn -> next < 2 ^ 64 ->
  nth_error starts k = Some (Address insn) ->
  nth_error starts (S k) = Some next ->
  let line := match outcome (annotate Filter m fl insns i insn) with
              | Ret insn' => [insnLine insn']
              | Panic => []
              end in
  match FindAddressSymbol m (Address insn) with
  | Some sym =>
      (demangleFlag fl = false ->
       printed (trace (loopBody Filter m fl (Some starts) insns i insn))
       = (newline ++ sym ++ ":" ++ newline) :: line)
      /\ (demangleFlag fl = true ->
          sym <> "" -> sym <> "." -> sym <> "$" ->
          exists s,
            doDemangle Filter sym = Ret s
            /\ printed (trace (loopBody Filter m fl (Some starts)
                                 insns i insn))
               = (newline ++ s ++ ":" ++ newline) :: line)
  | None =>
      printed (trace (loopBody Filter m fl (Some starts) insns i insn))
      = line
  end.
Proof.
  intros Hlen Hsorted Hlo Hhi Hk Hn line.
  assert (Hlt : Address insn < next)
    by (apply (ascending_nth starts Hsorted k (S k)); auto).
  assert (Haddr : uint64 (Address insn) = Address insn)
    by (unfold uint64; apply Z.mod_small; lia).
  assert (Hsz : uint64 (next - Address insn) = next - Address insn)
    by (unfold uint64; apply Z.mod_small; lia).
  assert (Hh : functionHeader Filter m fl (Some starts) insn =
               (r <- callFindAddressSymbol m (Address insn) ;;
                match r with
                | Some sym =>
                    sym' <- lift (demangled Filter fl sym) ;;
                    printf (newline ++ sym' ++ ":" ++ newline)
                | None => mret tt
                end)).
  { unfold functionHeader. rewrite Haddr.
    rewrite (isFunctionStart_entry starts _ next k Hlen Hsorted Hk Hn), Hsz.
    rewrite bind_lift_Ret, bind_ret.
    destruct (Z.eqb_spec (next - Address insn) 0); [lia|reflexivity]. }
  unfold callFindAddressSymbol in Hh. rewrite bind_traced in Hh.
  destruct (FindAddressSymbol m (Address insn)) as [sym|].
  - split.
    + intros Hd. rewrite (demangled_off Filter fl sym Hd), bind_lift_Ret in Hh.
      now rewrite (loopBody_after_header _ insns i insn _ Hh).
    + intros Hd H1 H2 H3.
      destruct (demangled_on sym Hd H1 H2 H3) as (s & Hs & Hdem).
      exists s. split; [exact Hs|].
      rewrite Hdem, bind_lift_Ret in Hh.
      now rewrite (loopBody_after_header _ insns i insn _ Hh).
  - now rewrite (loopBody_after_header _ insns i insn _ Hh).
Qed.

End Flags.

End FlagCases.

(** ** The flag cases on the sample inputs *)

Module FlagExamples.
Import Disass MachO Gapstone Sample.
Import FlagCases.

Lemma adrp_ldr_comment_by_flags_witness :
  (annotate noFilter withSymbols (flags true false)
     [adrp_x8; ldr_x8] 1 ldr_x8
   = ([CallFindAddressSymbol 0x100008cb8],
      Ret (setOpStr ldr_x8 "x8, [x8, #0xcb8] // _table"))
   /\ prefix "x8, [x8, #0xcb8]" "x8, [x8, #0xcb8] // _table" = true)
  /\ (exists s,
        doDemangle toyFilter "__Z3barv" = Ret s
        /\ annotate toyFilter mangled (flags true true)
             [adrp_x8; ldr_x8] 1 ldr_x8
           = ([CallFindAddressSymbol 0x100008cb8],
              Ret (setOpStr ldr_x8 ("x8, [x8, #0xcb8]" ++ " // " ++ s)))
        /\ prefix "x8, [x8, #0xcb8]" ("x8, [x8, #0xcb8]" ++ " // " ++ s)
           = true)
  /\ annotate noFilter withSymbols (flags false false)
       [adrp_x8; ldr_x8] 1 ldr_x8 = ([], Ret ldr_x8).
Proof.
  split; [|split].
  - apply (proj1 (adrp_ldr_comment_by_flags noFilter withSymbols
                    (flags true false) [adrp_x8; ldr_x8] 1 adrp_x8 ldr_x8
                    (regOp x8) (immOp 0x100008000) (regOp x8)
                    (memOp x8 0xcb8) x8 0x100008000 "_table"
                    eq_refl eq_refl eq_refl eq_refl eq_refl eq_refl
                    eq_refl eq_refl eq_refl eq_refl eq_refl));
      reflexivity.
  - apply (proj1 (proj2 (adrp_ldr_comment_by_flags toyFilter mangled
                    (flags true true) [adrp_x8; ldr_x8] 1 adrp_x8 ldr_x8
                    (regOp x8) (immOp 0x100008000) (regOp x8)
                    (memOp x8 0xcb8) x8 0x100008000 "__Z3barv"
                    eq_refl eq_refl eq_refl eq_refl eq_refl eq_refl
                    eq_refl eq_refl eq_refl eq_refl eq_refl)));
      solve [reflexivity | discriminate].
  - apply (proj2 (proj2 (adrp_ldr_comment_by_flags noFilter withSymbols
                    (flags false false) [adrp_x8; ldr_x8] 1 adrp_x8 ldr_x8
                    (regOp x8) (immOp 0x100008000) (regOp x8)
                    (memOp x8 0xcb8) x8 0x100008000 "_table"
                    eq_refl eq_refl eq_refl eq_refl eq_refl eq_refl
                    eq_refl eq_refl eq_refl eq_refl eq_refl))).
    reflexivity.
Defined.

(** Under the demangle flag the operand of a branch to the symbol
    [__Z3barv] is replaced by [bar()], not by the symbol name. *)
Lemma branch_operand_demangled :
  FindAddressSymbol mangled (uint64 0x100005000) = Some "__Z3barv"
  /\ annotate toyFilter mangled (flags false true) [bl_known] 0 bl_known
     = ([CallFindAddressSymbol 0x100005000], Ret (setOpStr bl_known "bar()"))
  /\ OpStr (setOpStr bl_known "bar()") <> "__Z3barv".
Proof.
  repeat split; try (vm_compute; reflexivity).
  vm_compute. discriminate.
Qed.

Lemma branch_operand_by_flags_witness :
  (annotate noFilter withSymbols (flags false false) [bl_known] 0 bl_known
   = ([CallFindAddressSymbol 0x100005000], Ret (setOpStr bl_known "_helper"))
   /\ OpStr (setOpStr bl_known "_helper") = "_helper")
  /\ (exists s,
        doDemangle toyFilter "__Z3barv" = Ret s
        /\ annotate toyFilter mangled (flags false true)
             [bl_known] 0 bl_known
           = ([CallFindAddressSymbol 0x100005000], Ret (setOpStr bl_known s))
        /\ OpStr (setOpStr bl_known s) = s).
Proof.
  split.
  - apply (proj1 (branch_operand_by_flags noFilter withSymbols
                    (flags false false) [bl_known] 0 bl_known
                    (immOp 0x100005000) [] eq_refl eq_refl eq_refl)).
    reflexivity.
  - apply (proj2 (branch_operand_by_flags toyFilter mangled
                    (flags false true) [bl_known] 0 bl_known
                    (immOp 0x100005000) [] eq_refl eq_refl eq_refl));
      solve [reflexivity | discriminate].
Defined.

(** Under the verbose and the demangle flag the comment of an adrp pair
    that resolves to the symbol [__Z3barv] is [bar()], not the symbol
    name. *)
Lemma label_comment_demangled :
  adrpTarget adrp_x8 ldr_x8 = Ret 0x100008cb8
  /\ FindAddressSymbol mangled (uint64 0x100008cb8) = Some "__Z3barv"
  /\ markupAdrp toyFilter mangled (flags true true)
       [adrp_x8; ldr_x8] 1 ldr_x8
     = ([CallFindAddressSymbol 0x100008cb8],
        Ret (setOpStr ldr_x8 "x8, [x8, #0xcb8] // bar()"))
  /\ "x8, [x8, #0xcb8] // bar()" <> "x8, [x8, #0xcb8] // __Z3barv".
Proof.
  repeat split; try (vm_compute; reflexivity).
  discriminate.
Qed.

Lemma label_lookup_by_flags_witness :
  markupAdrp noFilter withSymbols (flags true false)
    [adrp_x8; ldr_x8] 1 ldr_x8
  = ([CallFindAddressSymbol 0x100008cb8],
     Ret (setOpStr ldr_x8 "x8, [x8, #0xcb8] // _table"))
  /\ (exists s,
        doDemangle toyFilter "__Z3barv" = Ret s
        /\ markupAdrp toyFilter mangled (flags true true)
             [adrp_x8; ldr_x8] 1 ldr_x8
           = ([CallFindAddressSymbol 0x100008cb8],
              Ret (setOpStr ldr_x8 ("x8, [x8, #0xcb8]" ++ " // " ++ s)))).
Proof.
  split.
  - apply (proj1 (label_lookup_by_flags noFilter withSymbols
                    (flags true false) [adrp_x8; ldr_x8] 1 adrp_x8 ldr_x8
                    0x100008cb8 eq_refl (or_introl eq_refl) eq_refl eq_refl
                    eq_refl eq_refl eq_refl)).
    reflexivity.
  - apply (proj2 (label_lookup_by_flags toyFilter mangled
                    (flags true true) [adrp_x8; ldr_x8] 1 adrp_x8 ldr_x8
                    0x100008cb8 eq_refl (or_introl eq_refl) eq_refl eq_refl
                    eq_refl eq_refl eq_refl));
      solve [reflexivity | discriminate].
Defined.

Lemma function_header_first_witness :
  printed (trace (loopBody noFilter withSymbols (flags false false)
                    (Some [100; 140; 200]) [ret_at 140] 0 (ret_at 140)))
  = [newline ++ "_main" ++ ":" ++ newline; insnLine (ret_at 140)]
  /\ (exists s,
        doDemangle toyFilter "__Z3barv" = Ret s
        /\ printed (trace (loopBody toyFilter mangled (flags false true)
                             (Some [100; 140; 200]) [ret_at 140] 0
                             (ret_at 140)))
           = [newline ++ s ++ ":" ++ newline; insnLine (ret_at 140)])
  /\ printed (trace (loopBody noFilter stripped (flags false false)
                       (Some [100; 140; 200]) [ret_at 140] 0 (ret_at 140)))
     = [insnLine (ret_at 140)].
Proof.
  assert (Hlen : len [100; 140; 200] <= MaxInt) by (vm_compute; discriminate).
  assert (Hsorted : StronglySorted Z.lt [100; 140; 200])
    by (repeat constructor).
  assert (Hlo : 0 <= Address (ret_at 140)) by (simpl; lia).
  assert (Hhi : 200 < 2 ^ 64) by lia.
  split; [|split].
  - apply (proj1 (function_header_first noFilter withSymbols
                    (flags false false) [100; 140; 200] 1 200 [ret_at 140] 0
                    (ret_at 140) Hlen Hsorted Hlo Hhi eq_refl eq_refl)).
    reflexivity.
  - apply (proj2 (function_header_first toyFilter mangled
                    (flags false true) [100; 140; 200] 1 200 [ret_at 140] 0
                    (ret_at 140) Hlen Hsorted Hlo Hhi eq_refl eq_refl));
      solve [reflexivity | discriminate].
  - apply (function_header_first noFilter stripped
             (flags false false) [100; 140; 200] 1 200 [ret_at 140] 0
             (ret_at 140) Hlen Hsorted Hlo Hhi eq_refl eq_refl).
Defined.


(** C9: with the function starts [100, 140, 200] and [--vaddr 200], an
    address in no [__text] section, the command does not return the error
    "supplied vaddr not found in any __text section": it panics before the
    sections are searched, in the function-boundary lookup of the buffer
    set-up. *)
Theorem vaddr_at_last_function_start_panics :
  (exists img,
     openImage "kernel" = Ok img
     /\ FunctionStarts img = Some [100; 140; 200]
     /\ forall sec, In sec (Sections img) -> Name sec = "__text" ->
          ~ (Addr sec <= 200 < Addr sec + Size sec))
  /\ isFunctionStart [100; 140; 200] 200 = Panic
  /\ RunE noFilter openImage engine maxAlloc (flagsAt 200) ["kernel"]
     = ([], Panic).
Proof.
  split; [|split; vm_compute; reflexivity].
  eexists. split; [reflexivity|]. split; [reflexivity|].
  intros sec [<-|[]] _. simpl. lia.
Qed.


End FlagExamples.
